(** * alkali / redb: fields, model instances and managers

    A shallow embedding of the Python 2 sources

      - [redb/fields.py]     (module [Fields]),
      - [alkali/model.py]    (module [Model]),
      - [alkali/manager.py]  (module [Manager]),

    over a small universe of Python values (module [Py]), followed by the
    properties of casting, dirty tracking, primary keys, equality and of the
    manager's load / store / delete operations. *)

From Stdlib Require Import Ascii String.
From stdpp Require Import gmap strings list sorting.

Local Open Scope Z_scope.

(** ** Python values, exceptions and the builtins the sources call *)

Module Py.

(** The exceptions raised by the embedded code. *)
Inductive exn :=
  | TypeError | ValueError | KeyError | RuntimeError
  | AssertionError | AttributeError | OverflowError.

(** A computation either returns or raises. [Outside] is not a third way
    for the code to end: it stands for a call that returns in the source
    and leaves an object the types below have no value for (see
    [Model.dict_set]), so that nothing is said of what follows it. *)
Inductive result (A : Type) :=
  | Ok (a : A)
  | Raise (e : exn)
  | Outside.
Arguments Ok {A} a.
Arguments Raise {A} e.
Arguments Outside {A}.

#[global] Instance result_ret : MRet result := @Ok.
#[global] Instance result_bind : MBind result := λ A B f r,
  match r with Ok a => f a | Raise e => Raise e | Outside => Outside end.
#[global] Instance result_fmap : FMap result := λ A B f r,
  match r with Ok a => Ok (f a) | Raise e => Raise e | Outside => Outside end.

Definition raises {A} (r : result A) : Prop := ∃ e, r = Raise e.
Definition returns {A} (r : result A) : Prop := ∃ a, r = Ok a.

(** [datetime.datetime]: the wall-clock reading in microseconds and, for an
    aware value, the offset from UTC in minutes ([tzinfo] is [None] on a
    naive value). *)
Record datetime := mk_datetime { wall : Z; tzinfo : option Z }.

(** The values that reach the fields: [None], [bool], [int] (with [long]),
    [str] and [datetime.datetime]. Floating point numbers and [unicode]
    strings are outside the embedding. *)
Inductive value :=
  | VNone
  | VBool (b : bool)
  | VInt (z : Z)
  | VStr (s : string)
  | VDatetime (d : datetime).

#[global] Instance datetime_eq_dec : EqDecision datetime.
Proof. solve_decision. Defined.
#[global] Instance value_eq_dec : EqDecision value.
Proof. solve_decision. Defined.

(** [type(v)], as an identity tag. *)
Inductive tag := TNone | TBool | TInt | TStr | TDatetime.

#[global] Instance tag_eq_dec : EqDecision tag.
Proof. solve_decision. Defined.

Definition type_of (v : value) : tag :=
  match v with
  | VNone => TNone
  | VBool _ => TBool
  | VInt _ => TInt
  | VStr _ => TStr
  | VDatetime _ => TDatetime
  end.

(** A Python type object: its identity and what calling it on one argument
    does ([field_type(value)]). *)
Record pytype := mk_pytype {
  type_tag : tag;
  type_call : value → result value
}.

(** Calling a type yields an instance of exactly that type. *)
Definition type_sound (T : pytype) : Prop :=
  ∀ v r, type_call T v = Ok r → type_of r = type_tag T.

(** *** [int(x)] *)

Definition is_space (c : ascii) : bool :=
  let n := nat_of_ascii c in
  ((9 <=? n) && (n <=? 13) || (n =? 32))%nat.

Definition digit_of (c : ascii) : option Z :=
  let n := nat_of_ascii c in
  if ((48 <=? n) && (n <=? 57))%nat then Some (Z.of_nat n - 48) else None.

Fixpoint digits (acc : Z) (l : list ascii) : option Z :=
  match l with
  | [] => Some acc
  | c :: l' =>
      match digit_of c with
      | Some d => digits (10 * acc + d) l'
      | None => None
      end
  end.

Fixpoint lstrip (l : list ascii) : list ascii :=
  match l with
  | c :: l' => if is_space c then lstrip l' else l
  | [] => []
  end.

Definition strip (l : list ascii) : list ascii :=
  reverse (lstrip (reverse (lstrip l))).

(** One or more decimal digits. *)
Definition number (ds : list ascii) : option Z :=
  match ds with
  | [] => None
  | _ => digits 0 ds
  end.

(** The literals [int] accepts in base 10 ([PyInt_FromString], which reads
    the number with [PyOS_strtol] and [PyOS_strtoul]): blanks, an optional
    sign, blanks again, one or more decimal digits, blanks. Python 2 reads
    ['- 5'] as -5. *)
Definition parse_int (s : string) : option Z :=
  match strip (list_ascii_of_string s) with
  | [] => None
  | c :: ds =>
      if bool_decide (c = "+"%char) then number (lstrip ds)
      else if bool_decide (c = "-"%char) then Z.opp <$> number (lstrip ds)
      else number (c :: ds)
  end.

Definition py_int (v : value) : result value :=
  match v with
  | VNone => Raise TypeError
  | VBool b => Ok (VInt (Z.b2z b))
  | VInt z => Ok (VInt z)
  | VStr s =>
      match parse_int s with
      | Some z => Ok (VInt z)
      | None => Raise ValueError
      end
  | VDatetime _ => Raise TypeError
  end.

Definition int_type : pytype := mk_pytype TInt py_int.

(** *** [str(x)] and [datetime.datetime(x)]

    [str] never fails on the values above; the text it builds for a value
    that is not a string is left to [py_repr]. [datetime.datetime] called
    with one argument converts it to a C [int] before it looks for the
    month: [None] and a datetime are no integers ([TypeError]), an integer
    that does not fit raises [OverflowError], and one that fits, a [bool]
    among them, leaves the call without its month and day ([TypeError]). A
    string goes through the pickle support of the class, [unpickle]. *)

(** The integers of a C [int], of 32 bits. *)
Definition c_int (z : Z) : bool := (- 2 ^ 31 <=? z) && (z <? 2 ^ 31).

Section Builtins.
Variable py_repr : value → string.
Variable unpickle : string → result datetime.

Definition py_str (v : value) : result value :=
  match v with
  | VStr s => Ok (VStr s)
  | _ => Ok (VStr (py_repr v))
  end.

Definition py_datetime (v : value) : result value :=
  match v with
  | VStr s => VDatetime <$> unpickle s
  | VInt z => if c_int z then Raise TypeError else Raise OverflowError
  | _ => Raise TypeError
  end.

Definition str_type : pytype := mk_pytype TStr py_str.
Definition datetime_type : pytype := mk_pytype TDatetime py_datetime.
End Builtins.

(** *** [a == b] and [a != b] *)

Definition num_of (v : value) : option Z :=
  match v with
  | VBool b => Some (Z.b2z b)
  | VInt z => Some z
  | _ => None
  end.

Definition utc (d : datetime) (offset : Z) : Z := wall d - offset * 60000000.

(** Comparing a naive with an aware [datetime] raises in Python 2. *)
Definition datetime_eq (d e : datetime) : result bool :=
  match tzinfo d, tzinfo e with
  | None, None => Ok (bool_decide (wall d = wall e))
  | Some o1, Some o2 => Ok (bool_decide (utc d o1 = utc e o2))
  | _, _ => Raise TypeError
  end.

Definition py_eq (a b : value) : result bool :=
  match a, b with
  | VNone, VNone => Ok true
  | VStr s, VStr t => Ok (bool_decide (s = t))
  | VDatetime d, VDatetime e => datetime_eq d e
  | _, _ =>
      match num_of a, num_of b with
      | Some x, Some y => Ok (bool_decide (x = y))
      | _, _ => Ok false
      end
  end.

Definition py_ne (a b : value) : result bool := negb <$> py_eq a b.

Definition is_none (v : value) : bool :=
  match v with VNone => true | _ => false end.

End Py.

Import Py.

(** ** redb/fields.py *)

Module Fields.

(** A field descriptor. It holds no value: only the declared type, the
    primary-key option and the [cast] method of its class. *)
Record Field := mk_Field {
  field_type : pytype;
  primary_key : value;
  cast : value → result value
}.

(** [Field.cast]: [None] stays [None], a value whose type is not the
    declared one is passed to the type, any other value is returned. *)
Definition Field_cast (T : pytype) (value : value) : result Py.value :=
  if is_none value then Ok VNone
  else if bool_decide (type_of value ≠ type_tag T) then type_call T value
  else Ok value.

(** [Field.__init__(self, field_type, *args, **kw)]. Of the keywords only
    [primary_key] is read, the others stay in [kw] untouched. *)
Definition Field_init (field_type : option pytype) (args : list value)
    (kw : gmap string value) : result Field :=
  match field_type with
  | None => Raise AssertionError
  | Some T =>
      Ok {| field_type := T;
            primary_key := default (VBool false) (kw !! "primary_key"%string);
            cast := Field_cast T |}
  end.

(** [IntField.__init__] *)
Definition IntField_init (args : list value) (kw : gmap string value) :
    result Field :=
  Field_init (Some int_type) args kw.

(** [FloatField.__init__] calls [super(IntField, self)] on an object that is
    not an [IntField]: [super] raises [TypeError] before anything is set. *)
Definition FloatField_init (args : list value) (kw : gmap string value) :
    result Field :=
  Raise TypeError.

Section WithBuiltins.
Variable py_repr : value → string.
Variable unpickle : string → result datetime.
(** [dateutil.parser.parse] *)
Variable parse : string → result datetime.
(** the time zone [tzadd] gives to a naive value *)
Variable default_tz : Z.

(** [StringField.__init__] *)
Definition StringField_init (args : list value) (kw : gmap string value) :
    result Field :=
  Field_init (Some (str_type py_repr)) args kw.

(** Modelled from the spec: [tzadd] is imported from the package's
    [__init__], which is not among the sources; "naive input is assigned a
    default timezone". *)
Definition tzadd (d : datetime) : datetime :=
  {| wall := wall d; tzinfo := Some default_tz |}.

(** [value.tzinfo], an attribute of [datetime] values only. *)
Definition with_tz (date : value) : result value :=
  match date with
  | VDatetime d =>
      Ok (VDatetime (if tzinfo d is None then tzadd d else d))
  | _ => Raise AttributeError
  end.

(** [DateField.loads] *)
Definition DateField_loads (date : value) : result value :=
  if is_none date then Ok VNone
  else
    null ← py_eq date (VStr "null");
    if (null : bool) then Ok VNone
    else
      date ← match date with
             | VStr s => VDatetime <$> parse s
             | _ => Ok date
             end;
      with_tz date.

(** [DateField.cast] *)
Definition DateField_cast (T : pytype) (value : value) : result Py.value :=
  if is_none value then Ok VNone
  else if bool_decide (type_of value = TStr) then DateField_loads value
  else
    value ← (if bool_decide (type_of value ≠ type_tag T)
             then type_call T value else Ok value);
    with_tz value.

(** [DateField.__init__]; the class overrides [cast]. *)
Definition DateField_init (args : list value) (kw : gmap string value) :
    result Field :=
  f ← Field_init (Some (datetime_type unpickle)) args kw;
  Ok {| field_type := field_type f;
        primary_key := primary_key f;
        cast := DateField_cast (field_type f) |}.
End WithBuiltins.

(** A timezone-aware [datetime] value. *)
Definition aware (v : value) : Prop :=
  ∃ d, v = VDatetime d ∧ is_Some (tzinfo d).

End Fields.

(** ** alkali/model.py *)

Module Model.

Import Fields.

(** The value of [pk]: the value of the only primary-key field, or the tuple
    of the values of the primary-key fields. *)
Inductive pkv :=
  | PSingle (v : value)
  | PTuple (vs : list value).

(** A model instance: its class and its [__dict__], which holds the flag
    under [_dirty], the memo of [pk] under [_pk] once there is one, and in
    [attrs] the entries under the other names, the values of the schema
    fields among them. *)
Record instance := mk_instance {
  cls : string;
  attrs : gmap string value;
  _dirty : bool;
  _pk : option pkv
}.

(** [Meta]: the schema of a model class. [fields] is an ordered mapping in
    the source; its order is read by [dict] and [schema] only. The
    descriptors are those of [Fields]; none of them is a [ForeignKey], a
    class of alkali/fields.py, which is not among the sources, so that
    [__getattribute__] always takes its last line. A field is not named as
    an attribute of the class or as [_dirty] or [_pk]. *)
Record Meta := mk_Meta {
  fields : gmap string Field;
  pk_fields : list string
}.

(** [getattr(self, name)] for a name that is not defined on the class. *)
Definition getattr (self : instance) (attr : string) : result value :=
  match attrs self !! attr with
  | Some v => Ok v
  | None => Raise AttributeError
  end.

(** The body of the [pk] property. *)
Definition compute_pk (M : Meta) (self : instance) : result pkv :=
  pks ← mapM (getattr self) (pk_fields M);
  match pks with
  | [v] => Ok (PSingle v)
  | _ => Ok (PTuple pks)
  end.

(** Modelled from the spec: [memoized_property] is not among the sources;
    [pk] is a "derived, memoized-once-computed value". The memo is the
    entry [_pk] of [__dict__], the name of the property after an
    underscore, as in the usual recipe of a memoized property. *)
Definition pk (M : Meta) (self : instance) : result pkv :=
  match _pk self with
  | Some p => Ok p
  | None => compute_pk M self
  end.

(** [Model.__assign_field]. The observers of [signals.field_update] are not
    part of the embedding. *)
Definition assign_field (M : Meta) (self : instance) (attr : string)
    (val : value) : result instance :=
  match fields M !! attr with
  | None => Raise KeyError
  | Some field_type =>
      val ← cast field_type val;
      match attrs self !! attr with
      | Some curr_val =>
          _ ← (if bool_decide (attr ∈ pk_fields M) then
                 changed ← (if is_none curr_val then Ok false
                            else py_ne curr_val val);
                 if (changed : bool)
                 then _ ← pk M self; Raise RuntimeError
                 else Ok ()
               else Ok ());
          changed ← py_ne curr_val val;
          Ok {| cls := cls self; attrs := <[attr := val]> (attrs self);
                _dirty := changed; _pk := _pk self |}
      | None =>
          Ok {| cls := cls self; attrs := <[attr := val]> (attrs self);
                _dirty := _dirty self; _pk := _pk self |}
      end
  end.

(** The attributes of the class that the code reads through the instance
    and that an entry of [__dict__] under the same name hides: the schema,
    which [__getattribute__] reads on every access, [__assign_field] under
    its mangled name, [__eq__], which [__ne__] calls, and [save]. The
    properties, [__class__] and [__dict__] are data descriptors, which no
    entry hides. *)
Definition class_names : list string :=
  ["Meta"; "_Model__assign_field"; "__eq__"; "save"]%string.

(** [self.__dict__[attr] = val], the last line of [__setattr__]. [__dict__]
    is where [dirty] reads [_dirty] and where the memo of [pk] is kept: an
    assignment to [_dirty] is the new flag, an assignment to [_pk] the new
    memo. An entry under [Meta] hides the schema, after which every
    attribute access raises [AttributeError] in [__getattribute__], and an
    entry under the name of a method hides the method: of such an object,
    and of one whose flag is not a [bool], there is no [instance]. *)
Definition dict_set (self : instance) (attr : string) (val : value) :
    result instance :=
  if bool_decide (attr = "_dirty"%string) then
    match val with
    | VBool b => Ok {| cls := cls self; attrs := attrs self;
                       _dirty := b; _pk := _pk self |}
    | _ => Outside
    end
  else if bool_decide (attr = "_pk"%string) then
    Ok {| cls := cls self; attrs := attrs self;
          _dirty := _dirty self; _pk := Some (PSingle val) |}
  else if bool_decide (attr ∈ class_names) then Outside
  else Ok {| cls := cls self; attrs := <[attr := val]> (attrs self);
             _dirty := _dirty self; _pk := _pk self |}.

(** [Model.__setattr__] *)
Definition setattr (M : Meta) (self : instance) (attr : string)
    (val : value) : result instance :=
  if bool_decide (is_Some (fields M !! attr)) then assign_field M self attr val
  else dict_set self attr val.

(** [Model.__init__]: the keywords left by the metaclass, in the order the
    dictionary yields them. *)
Fixpoint init (M : Meta) (self : instance) (kw : list (string * value)) :
    result instance :=
  match kw with
  | [] => Ok self
  | (name, value) :: kw' =>
      self ← setattr M self name value;
      init M self kw'
  end.

(** The [dirty] property. *)
Definition dirty (self : instance) : bool := _dirty self.

(** [Model.save]: in the manager the call stores [self] under its [pk],
    which must not be [None] (see [Manager.save]); on the instance it reads
    [pk] and clears [_dirty]. *)
Definition save (M : Meta) (self : instance) : result instance :=
  p ← pk M self;
  match p with
  | PSingle VNone => Raise AssertionError
  | _ => Ok {| cls := cls self; attrs := attrs self; _dirty := false;
               _pk := Some p |}
  end.

(** Tuples compare item by item, then by length. *)
Fixpoint tuple_eq (xs ys : list value) : result bool :=
  match xs, ys with
  | x :: xs', y :: ys' =>
      e ← py_eq x y;
      if (e : bool) then tuple_eq xs' ys' else Ok false
  | [], [] => Ok true
  | _, _ => Ok false
  end.

Definition pkv_eq (a b : pkv) : result bool :=
  match a, b with
  | PSingle x, PSingle y => py_eq x y
  | PTuple xs, PTuple ys => tuple_eq xs ys
  | _, _ => Ok false
  end.

(** What a model instance can be compared with. *)
Inductive pyobj :=
  | OValue (v : value)
  | OModel (m : instance).

(** [Model.__eq__]: [type(self) == type(other) and self.pk == other.pk]. *)
Definition eq (M : Meta) (self : instance) (other : pyobj) : result bool :=
  match other with
  | OModel o =>
      if bool_decide (cls self = cls o) then
        a ← pk M self; b ← pk M o; pkv_eq a b
      else Ok false
  | OValue _ => Ok false
  end.

(** [Model.__ne__] *)
Definition ne (M : Meta) (self : instance) (other : pyobj) : result bool :=
  negb <$> eq M self other.

(** *** Histories of an instance

    The steps that touch [_dirty]: an attribute assignment and [save]. *)
Inductive op :=
  | Assign (attr : string) (val : value)
  | Save.

Fixpoint run (M : Meta) (self : instance) (ops : list op) : result instance :=
  match ops with
  | [] => Ok self
  | Assign attr val :: ops' =>
      self ← setattr M self attr val;
      run M self ops'
  | Save :: ops' =>
      self ← save M self;
      run M self ops'
  end.

(** The flag as the specification words it: raised by every assignment of a
    schema field whose cast value differs from the previous one, a field
    that was never assigned counting as [None]; lowered by [save] and by
    nothing else. The instance is the one the code computes. *)
Fixpoint claimed_dirty (M : Meta) (self : instance) (flag : bool)
    (ops : list op) : result bool :=
  match ops with
  | [] => Ok flag
  | Assign attr val :: ops' =>
      changed ← match fields M !! attr with
                | Some f =>
                    val ← cast f val;
                    py_ne (default VNone (attrs self !! attr)) val
                | None => Ok false
                end;
      self ← setattr M self attr val;
      claimed_dirty M self (flag || changed) ops'
  | Save :: ops' =>
      self ← save M self;
      claimed_dirty M self false ops'
  end.

End Model.

(** ** What a manager asks of a model instance *)

Module IModel.

(** What the manager reads of a model instance: [pk] ([None] for Python's
    [None]) and [dirty]. *)
Class ModelLike (I K : Type) := {
  pk : I → option K;
  dirty : I → bool
}.

End IModel.

(** ** alkali/manager.py *)

Module Manager.

(** What [storage.read] yields: a dictionary of field values, or a model
    instance. *)
Inductive record (R I : Type) :=
  | Raw (elem : R)
  | Built (elem : I).
Arguments Raw {R I} elem.
Arguments Built {R I} elem.

Section Manager.
Context {K I R : Type} `{Countable K} `{ML : !IModel.ModelLike I K}.
(** the order of the keys, as [sorted] sees it *)
Context (key_le : relation K) `{!RelDecision key_le}.
(** the call of [self._model_class] on the entries of [elem] *)
Context (model_class : R → result I).

(** The state of a manager. The dictionary holds the instances as they are
    when the manager is called: what other code does to an owned instance
    between two calls shows as another value under the same key. *)
Record manager := mk_manager {
  _instances : gmap K I;
  _dirty : bool
}.

(** [len(self)] and the [count] property *)
Definition count (self : manager) : nat := size (_instances self).

(** [Manager.clear] *)
Definition clear (self : manager) : manager :=
  {| _instances := ∅; _dirty := bool_decide (0 < count self)%nat |}.

(** [Manager.__init__] *)
Definition new : manager :=
  clear {| _instances := ∅; _dirty := false |}.

(** The [pks] property *)
Definition pks (self : manager) : list K := (map_to_list (_instances self)).*1.

(** [Manager.sorter]: the keys are sorted, then each one is looked up. *)
Definition sorter (elements : gmap K I) (rev : bool) : list I :=
  let keys := merge_sort key_le (map_to_list elements).*1 in
  let keys := if rev then reverse keys else keys in
  omap (λ key, elements !! key) keys.

(** The [instances] property *)
Definition instances (self : manager) : list I :=
  sorter (_instances self) false.

(** The [dirty] property of the manager *)
Definition dirty (self : manager) : bool :=
  if _dirty self then true
  else existsb IModel.dirty (instances self).

(** [Manager.save] *)
Definition save (instance : I) (mark : bool) (self : manager) :
    result () * manager :=
  match IModel.pk instance with
  | None => (Raise AssertionError, self)
  | Some k =>
      (Ok (),
       {| _instances := <[k := instance]> (_instances self);
          _dirty := if mark then true else _dirty self |})
  end.

(** [Manager.delete]: the [KeyError] of [del] is swallowed. *)
Definition delete (instance : I) (self : manager) : manager :=
  match IModel.pk instance with
  | Some k =>
      match _instances self !! k with
      | Some _ =>
          {| _instances := base.delete k (_instances self); _dirty := true |}
      | None => self
      end
  | None => self
  end.

(** [Manager.store]: the new state and, when [storage.write] is called,
    the sequence it is given. The value [write] returns is dropped. *)
Definition store (force : bool) (self : manager) :
    manager * option (list I) :=
  let self := if force
              then {| _instances := _instances self; _dirty := true |}
              else self in
  let written := if dirty self
                 then Some (sorter (_instances self) false)
                 else None in
  ({| _instances := _instances self; _dirty := false |}, written).

(** [elem.pk in self._instances] *)
Definition pk_in (elem : I) (self : manager) : bool :=
  match IModel.pk elem with
  | Some k => bool_decide (is_Some (_instances self !! k))
  | None => false
  end.

(** [isinstance(elem, dict)]: a dictionary is turned into an instance of
    the model class. *)
Definition build (elem : record R I) : result I :=
  match elem with
  | Raw d => model_class d
  | Built e => Ok e
  end.

(** The loop of [Manager.load]. *)
Fixpoint load_loop (elems : list (record R I)) (self : manager) :
    result () * manager :=
  match elems with
  | [] => (Ok (), {| _instances := _instances self; _dirty := false |})
  | elem :: elems' =>
      match build elem with
      | Raise e => (Raise e, self)
      | Outside => (Outside, self)
      | Ok elem =>
          if pk_in elem self then (Raise KeyError, self)
          else
            match save elem false self with
            | (Ok _, self) => load_loop elems' self
            | (Raise e, self) => (Raise e, self)
            | (Outside, self) => (Outside, self)
            end
      end
  end.

(** [Manager.load], given what [storage.read(self._model_class)] yields. *)
Definition load (elems : list (record R I)) (self : manager) :
    result () * manager :=
  load_loop elems (clear self).

(** A key with the instance it is filed under. *)
Definition entry (elements : gmap K I) (key : K) : option (K * I) :=
  (key,.) <$> elements !! key.

(** Every instance is filed under its own [pk]. *)
Definition filed (self : manager) : Prop :=
  ∀ k i, _instances self !! k = Some i → IModel.pk i = Some k.
End Manager.

Arguments manager K I {_ _}.

End Manager.

(** ** A model with two integer fields, and its manager *)

Module Sample.

Import Fields Model.

(** The descriptors built by [IntField(primary_key=True)] and
    [IntField(primary_key=False)]. *)
Definition x_field : Field :=
  {| field_type := int_type; primary_key := VBool true;
     cast := Field_cast int_type |}.
Definition n_field : Field :=
  {| field_type := int_type; primary_key := VBool false;
     cast := Field_cast int_type |}.

(** The schema: [x] is the primary key. *)
Definition meta : Meta :=
  {| fields := {[ "x"%string := x_field; "n"%string := n_field ]};
     pk_fields := ["x"%string] |}.

(** An instance as it is after [save]. *)
Definition row (x n : Z) : instance :=
  {| cls := "Sample"; attrs := {[ "x"%string := VInt x; "n"%string := VInt n ]};
     _dirty := false; _pk := Some (PSingle (VInt x)) |}.

(** An instance that holds no field yet, with the flag it was given. *)
Definition blank (flag : bool) : instance :=
  {| cls := "Sample"; attrs := ∅; _dirty := flag; _pk := None |}.

(** The primary key is assigned, the instance is saved, then [n] is
    assigned for the first time. *)
Definition late_field : list op :=
  [Assign "x" (VInt 1); Save; Assign "n" (VInt 5)].

(** [n] is changed, then assigned the value it holds. *)
Definition twice : list op :=
  [Assign "n" (VInt 3); Assign "n" (VInt 3)].

(** The row 1, 2 after [n] was set to 3: it is dirty. *)
Definition edited : instance :=
  {| cls := "Sample"; attrs := {[ "x"%string := VInt 1; "n"%string := VInt 3 ]};
     _dirty := true; _pk := Some (PSingle (VInt 1)) |}.

(** The key a manager files an instance of this model under: the primary
    key is an integer field, [pk] is an integer or [None]. *)
Definition key (self : instance) : option Z :=
  match pk meta self with
  | Ok (PSingle (VInt z)) => Some z
  | _ => None
  end.

#[global] Instance sample_model : IModel.ModelLike instance Z :=
  {| IModel.pk := key; IModel.dirty := dirty |}.

(** Building an instance from a dictionary that holds [x] and [n]. *)
Definition model_class (elem : Z * Z) : result instance :=
  Ok (row elem.1 elem.2).

(** What a storage holding the rows 3, 1 and 2, 2 yields: an instance and a
    dictionary. *)
Definition stored : list (Manager.record (Z * Z) instance) :=
  [Manager.Built (row 3 1); Manager.Raw (2, 2)].

(** The manager after loading them. *)
Definition loaded : Manager.manager Z instance :=
  (Manager.load model_class stored Manager.new).2.

End Sample.

(** ** redb/fields.py: the serialisation hooks *)

Module FieldsIO.

Import Fields.

(** [Field.dumps] and [Field.loads], class methods of the base class. *)
Definition Field_dumps (value : value) : result Py.value := Ok value.
Definition Field_loads (value : value) : result Py.value := Ok value.

(** [DateField.dumps]; [isoformat] is the method of [datetime], which only
    datetime values have. *)
Definition DateField_dumps (isoformat : datetime → string) (value : value) :
    result Py.value :=
  match value with
  | VNone => Ok (VStr "null")
  | VDatetime d => Ok (VStr (isoformat d))
  | _ => Raise AttributeError
  end.

End FieldsIO.

(** ** alkali/model.py: what the schema makes of a keyword *)

Module ModelInv.

Import Fields Model.

(** The value [__setattr__] stores for [name]: the cast one for a schema
    field, the given one for any other name. *)
Definition kept (M : Meta) (name : string) (value : value) : result Py.value :=
  match fields M !! name with
  | Some f => cast f value
  | None => Ok value
  end.

(** A name under which an assignment files data of the instance: the name
    of a schema field, or a name that is neither [_dirty], [_pk] nor one of
    [class_names]. *)
Definition plain (M : Meta) (attr : string) : bool :=
  bool_decide (is_Some (fields M !! attr))
  || negb (bool_decide (attr ∈ "_dirty"%string :: "_pk"%string :: class_names)).

(** Every value held for a schema field was returned by the cast of that
    field. *)
Definition held_cast (M : Meta) (self : instance) : Prop :=
  ∀ attr f v, fields M !! attr = Some f → attrs self !! attr = Some v →
    ∃ w, cast f w = Ok v.



End ModelInv.

(** ** redb/manager.py *)

Module Redb.

Section Manager.
Context {K I R : Type} `{Countable K}.
(** [instance.pk], [None] for Python's [None] *)
Context (pk : I → option K).
(** the call of [self._model_class] on the entries of a dictionary *)
Context (model_class : R → result I).

(** The state of this manager is its dictionary [_instances]. *)
Implicit Types (self : gmap K I).

(** [Manager.__init__] *)
Definition new : gmap K I := ∅.

(** [len(self)] and the [count] property *)
Definition count self : nat := size self.

(** [Manager.save] *)
Definition save (instance : I) self : result () * gmap K I :=
  match pk instance with
  | None => (Raise AssertionError, self)
  | Some k => (Ok (), <[k := instance]> self)
  end.

(** [Manager.clear] *)
Definition clear self : gmap K I := ∅.

(** [Manager.delete] *)
Definition delete (instance : I) self : gmap K I :=
  match pk instance with
  | Some k => base.delete k self
  | None => self
  end.

(** [Manager.load], given the list of dictionaries [storage.read()]
    returns: each one is built and saved, in turn. *)
Fixpoint load (data : list R) self : result () * gmap K I :=
  match data with
  | [] => (Ok (), self)
  | elem :: data' =>
      match model_class elem with
      | Raise e => (Raise e, self)
      | Outside => (Outside, self)
      | Ok m =>
          match save m self with
          | (Ok _, self) => load data' self
          | (Raise e, self) => (Raise e, self)
          | (Outside, self) => (Outside, self)
          end
      end
  end.
End Manager.

End Redb.

(** ** redb/database.py *)

Module Database.

Section Database.
(** The tables, of which the database reads [name]. *)
Context {T : Type} (name : T → string).

(** [d[key] = value] on an [OrderedDict]: a key that is there keeps its
    place, a new one goes last. *)
Fixpoint od_set (key : string) (value : T) (d : list (string * T)) :
    list (string * T) :=
  match d with
  | [] => [(key, value)]
  | (k, v) :: d' =>
      if bool_decide (k = key) then (k, value) :: d'
      else (k, v) :: od_set key value d'
  end.

(** The storage class is read for its [extension] only; that of
    [JSONStorage], the default, is ['json'], as redb/tests/test_storage.py
    asserts. *)
Definition JSONStorage : string := "json".

Record database := mk_database {
  _tables : list (string * T);
  _storage_type : string;
  _root_dir : string
}.

(** The loop of [__init__]: each table is stored under its name. *)
Definition fill (tables : list T) : list (string * T) :=
  foldl (λ d table, od_set (name table) table d) [] tables.

(** [Database.__init__(self, tables=[], *args, **kw)], with the keywords
    [storage] and [root_dir] when they are given. *)
Definition init (tables : list T) (storage root_dir : option string) :
    database :=
  {| _tables := fill tables;
     _storage_type := default JSONStorage storage;
     _root_dir := default "."%string root_dir |}.

(** The [tables] property *)
Definition tables (self : database) : list T := (_tables self).*2.

(** [os.path.join(a, b)] of [posixpath] *)
Definition path_join (a b : string) : string :=
  if String.prefix "/" b then b
  else if bool_decide (a = ""%string) || String.prefix "/" (String.rev a)
       then a +:+ b
       else a +:+ "/" +:+ b.

(** [Database.get_filename] *)
Definition get_filename (self : database) (table : T) : string :=
  let ext := _storage_type self in
  path_join (_root_dir self) (name table +:+ "." +:+ ext).
End Database.

End Database.

(** ** More rows of the sample model *)

Module SampleMore.

Import Fields Model Sample.

(** A row whose primary key is [None]. *)
Definition unkeyed : instance :=
  {| cls := "Sample"; attrs := {[ "x"%string := VNone; "n"%string := VInt 0 ]};
     _dirty := false; _pk := None |}.

(** The sample manager when the row 1, 3, which is dirty, was saved
    without the manager's flag. *)
Definition with_edited : Manager.manager Z instance :=
  (Manager.save edited false loaded).2.

End SampleMore.

(** * Properties *)

(** ** The builtins *)

Module PyFacts.

Lemma bind_Ok {A B} (f : A → result B) (a : A) : Ok a ≫= f = f a.
Proof. reflexivity. Qed.

Lemma bind_returns {A B} (f : A → result B) (r : result A) (b : B) :
  r ≫= f = Ok b → ∃ a, r = Ok a ∧ f a = Ok b.
Proof. destruct r as [a|e|]; [eauto | discriminate..]. Qed.

Lemma fmap_returns {A B} (f : A → B) (r : result A) (b : B) :
  f <$> r = Ok b → ∃ a, r = Ok a ∧ f a = b.
Proof. destruct r as [a|e|]; cbn; [|discriminate..]. intros [= <-]. eauto. Qed.

(** A value equals itself. *)
Lemma py_eq_refl (v : value) : py_eq v v = Ok true.
Proof.
  destruct v as [|b|z|s|[w [o|]]]; cbn; try reflexivity;
    by rewrite ?bool_decide_eq_true_2.
Qed.

Lemma py_ne_refl (v : value) : py_ne v v = Ok false.
Proof. unfold py_ne. by rewrite py_eq_refl. Qed.

(** [None] is equal to [None] only, and comparing with it never raises. *)
Lemma py_ne_None_r (v : value) : py_ne v VNone = Ok (negb (is_none v)).
Proof. by destruct v as [|[]| | |]. Qed.

Lemma int_type_sound : type_sound int_type.
Proof.
  intros v r. destruct v as [|b|z|s|d]; cbn; try discriminate.
  - by intros [= <-].
  - by intros [= <-].
  - destruct (parse_int s); [by intros [= <-] | discriminate].
Qed.

Lemma str_type_sound py_repr : type_sound (str_type py_repr).
Proof. intros v r. destruct v; cbn; by intros [= <-]. Qed.

Lemma datetime_type_sound unpickle : type_sound (datetime_type unpickle).
Proof.
  intros v r. destruct v as [| |z|s|]; cbn; try discriminate.
  - by destruct (c_int z).
  - destruct (unpickle s); cbn; [by intros [= <-] | discriminate..].
Qed.

(** *** Strings that [int] refuses *)

Lemma lstrip_subseteq (l : list ascii) : lstrip l ⊆ l.
Proof.
  induction l as [|c l IH]; cbn; [done|].
  destruct (is_space c); [|done].
  by apply list_subseteq_cons.
Qed.

Lemma strip_subseteq (l : list ascii) : strip l ⊆ l.
Proof.
  unfold strip. intros c Hc.
  rewrite elem_of_reverse in Hc.
  pose proof (lstrip_subseteq _ _ Hc) as Hc'.
  rewrite elem_of_reverse in Hc'. exact (lstrip_subseteq _ _ Hc').
Qed.

Lemma number_no_digit (c : ascii) (ds : list ascii) :
  digit_of c = None → number (c :: ds) = None.
Proof. intros Hc. cbn. by rewrite Hc. Qed.

(** A string without a decimal digit is not a literal of [int]. *)
Lemma parse_int_no_digit (s : string) :
  (∀ c, c ∈ list_ascii_of_string s → digit_of c = None) →
  parse_int s = None.
Proof.
  intros Hs. unfold parse_int.
  pose proof (strip_subseteq (list_ascii_of_string s)) as Hsub.
  destruct (strip (list_ascii_of_string s)) as [|c ds]; [done|].
  assert (Hnum : ∀ l, l ⊆ c :: ds → number l = None).
  { intros [|c' l] Hl; [done|]. apply number_no_digit, Hs, Hsub, Hl. left. }
  assert (lstrip ds ⊆ c :: ds) as Hds.
  { etrans; [apply lstrip_subseteq | by apply list_subseteq_cons]. }
  repeat case_bool_decide.
  - by apply Hnum.
  - by rewrite Hnum.
  - by apply Hnum.
Qed.

End PyFacts.

(** ** Field descriptors *)

Module FieldsSpec.

Import Fields PyFacts.

Lemma Field_init_cast (T : pytype) args kw (f : Field) :
  Field_init (Some T) args kw = Ok f → cast f = Field_cast T.
Proof. by intros [= <-]. Qed.

Lemma Field_cast_None (T : pytype) : Field_cast T VNone = Ok VNone.
Proof. reflexivity. Qed.

Lemma Field_cast_same (T : pytype) (v : value) :
  type_of v = type_tag T → Field_cast T v = Ok v.
Proof.
  intros Hv. unfold Field_cast. destruct (is_none v) eqn:Hn.
  - by destruct v.
  - by rewrite bool_decide_eq_false_2 by (by intros []).
Qed.

Lemma Field_cast_other (T : pytype) (v : value) :
  v ≠ VNone → type_of v ≠ type_tag T → Field_cast T v = type_call T v.
Proof.
  intros Hn Hv. unfold Field_cast.
  destruct v; [done|..]; cbn; by rewrite bool_decide_eq_true_2.
Qed.

(** What the cast of the base class returns is [None] or has the declared
    type. *)
Lemma Field_cast_type (T : pytype) (v r : value) :
  type_sound T → Field_cast T v = Ok r →
  r = VNone ∧ v = VNone ∨ type_of r = type_tag T.
Proof.
  intros HT. destruct (decide (v = VNone)) as [->|Hn].
  { intros [= <-]. by left. }
  destruct (decide (type_of v = type_tag T)) as [Hv|Hv].
  - rewrite Field_cast_same by done. intros [= <-]. by right.
  - rewrite Field_cast_other by done. intros Hr. right. by eapply HT.
Qed.

Lemma Field_cast_idem (T : pytype) (v r : value) :
  type_sound T → Field_cast T v = Ok r → Field_cast T r = Ok r.
Proof.
  intros HT Hr. destruct (Field_cast_type T v r HT Hr) as [[-> _]|Hty].
  - reflexivity.
  - by apply Field_cast_same.
Qed.

Section Dates.
Context (unpickle parse : string → result datetime) (default_tz : Z).

Local Abbreviation tzadd := (Fields.tzadd default_tz).
Local Abbreviation with_tz := (Fields.with_tz default_tz).
Local Abbreviation DateField_loads := (Fields.DateField_loads parse default_tz).
Local Abbreviation DateField_cast :=
  (Fields.DateField_cast parse default_tz (datetime_type unpickle)).
Local Abbreviation DateField_init :=
  (Fields.DateField_init unpickle parse default_tz).

Lemma DateField_init_cast args kw (f : Field) :
  DateField_init args kw = Ok f → cast f = DateField_cast.
Proof. by intros [= <-]. Qed.

Lemma with_tz_aware (v r : value) : with_tz v = Ok r → aware r.
Proof.
  destruct v as [| | | |d]; try discriminate. cbn. intros [= <-].
  eexists; split; [done|]. destruct (tzinfo d) eqn:Hd; cbn; eauto.
Qed.

Lemma with_tz_fixed (v r : value) : with_tz v = Ok r → with_tz r = Ok r.
Proof.
  destruct v as [| | | |d]; try discriminate. cbn. intros [= <-].
  by destruct (tzinfo d) eqn:Hd; cbn; rewrite ?Hd.
Qed.

Lemma DateField_cast_None : DateField_cast VNone = Ok VNone.
Proof. reflexivity. Qed.

(** The string ['null'] is read as [None]. *)
Lemma DateField_cast_null : DateField_cast (VStr "null") = Ok VNone.
Proof. reflexivity. Qed.

Lemma DateField_cast_datetime (d : datetime) :
  DateField_cast (VDatetime d) =
  Ok (VDatetime (if tzinfo d is None then tzadd d else d)).
Proof. reflexivity. Qed.

Lemma DateField_cast_aware (d : datetime) :
  is_Some (tzinfo d) → DateField_cast (VDatetime d) = Ok (VDatetime d).
Proof. intros [o Ho]. rewrite DateField_cast_datetime. by rewrite Ho. Qed.

Lemma c_int_spec (z : Z) : c_int z = true ↔ - 2 ^ 31 ≤ z < 2 ^ 31.
Proof. unfold c_int. rewrite andb_true_iff, Z.leb_le, Z.ltb_lt. done. Qed.

(** A value that is neither [None], a string nor a datetime is handed to
    [datetime.datetime], which raises [OverflowError] on an integer that is
    not a C [int] and [TypeError] on any other. *)
Lemma DateField_cast_error (v : value) :
  v ≠ VNone → type_of v ≠ TStr → type_of v ≠ TDatetime →
  (DateField_cast v = Raise TypeError ∨ DateField_cast v = Raise OverflowError)
  ∧ (DateField_cast v = Raise OverflowError ↔
     ∃ z, v = VInt z ∧ ¬ (- 2 ^ 31 ≤ z < 2 ^ 31)).
Proof.
  destruct v as [|b|z|s|d]; try done; intros _ _ _.
  - split; [by left|]. split; [done | by intros (z & ? & _)].
  - unfold Fields.DateField_cast. cbn. destruct (c_int z) eqn:Hz; cbn.
    + apply c_int_spec in Hz. split; [by left|].
      split; [done|]. by intros (z' & [= <-] & Hn).
    + split; [by right|]. split; [|done]. intros _. exists z.
      split; [done|]. rewrite <-c_int_spec. by rewrite Hz.
Qed.

(** What the cast of a datetime field returns: [None] for [None] and for
    ['null'], an aware value otherwise. *)
Lemma DateField_cast_result (v r : value) :
  DateField_cast v = Ok r →
  r = VNone ∧ (v = VNone ∨ v = VStr "null") ∨ aware r.
Proof.
  destruct v as [|b|z|s|d]; try discriminate.
  - intros [= <-]. left. split; [done | by left].
  - unfold Fields.DateField_cast. cbn. by destruct (c_int z).
  - unfold Fields.DateField_cast, Fields.DateField_loads. cbn.
    rewrite (bool_decide_eq_true_2 (TStr = TStr)) by done.
    destruct (decide (s = "null"%string)) as [->|Hs].
    + intros [= <-]. left. split; [done | by right].
    + rewrite (bool_decide_eq_false_2 (s = "null"%string)) by done.
      destruct (parse s) as [d|e|]; cbn; [|discriminate..].
      intros Hr. right. by eapply (with_tz_aware (VDatetime d)).
  - intros Hr. right. by eapply (with_tz_aware (VDatetime d)).
Qed.

Lemma DateField_cast_idem (v r : value) :
  DateField_cast v = Ok r → DateField_cast r = Ok r.
Proof.
  intros Hr. destruct (DateField_cast_result v r Hr) as [[-> _]|(d&->&Hd)].
  - reflexivity.
  - by apply DateField_cast_aware.
Qed.
End Dates.

(** C6, as amended. For every descriptor of the base class: [cast] maps
    [None] to [None], returns as it is a value whose type is the declared
    one, and hands any other value to the declared type, so that it returns
    a value of that type or raises as the conversion does; [int], [str] and
    [datetime] convert to their own type. An integer field returns the
    integer an integer literal denotes and raises [ValueError] on exactly
    the strings that are not integer literals, those without a digit among
    them. A datetime field returns [None] for [None] and for the string
    ['null']; on a value that is neither a string nor a datetime it raises
    [OverflowError] when the value is an integer outside the range of a C
    [int] and [TypeError] otherwise; it parses any other string, gives the
    default time zone to a naive datetime and keeps an aware one; whatever
    it returns apart from these two [None] is timezone-aware. *)
Theorem cast_spec (py_repr : value → string)
    (unpickle parse : string → result datetime) (default_tz : Z) :
  (∀ T args kw f, Field_init (Some T) args kw = Ok f →
     cast f VNone = Ok VNone
     ∧ (∀ v, type_of v = type_tag T → cast f v = Ok v)
     ∧ (∀ v, v ≠ VNone → type_of v ≠ type_tag T → cast f v = type_call T v)
     ∧ (type_sound T →
        ∀ v r, v ≠ VNone → cast f v = Ok r → type_of r = type_tag T))
  ∧ (type_sound int_type ∧ type_sound (str_type py_repr)
     ∧ type_sound (datetime_type unpickle))
  ∧ (∀ args kw f s, IntField_init args kw = Ok f →
       (cast f (VStr s) = Raise ValueError ↔ parse_int s = None)
       ∧ (∀ z, cast f (VStr s) = Ok (VInt z) ↔ parse_int s = Some z)
       ∧ (Forall (λ c, digit_of c = None) (list_ascii_of_string s) →
          cast f (VStr s) = Raise ValueError))
  ∧ (∀ args kw f, DateField_init unpickle parse default_tz args kw = Ok f →
       cast f VNone = Ok VNone
       ∧ cast f (VStr "null") = Ok VNone
       ∧ (∀ v, v ≠ VNone → type_of v ≠ TStr → type_of v ≠ TDatetime →
          (cast f v = Raise TypeError ∨ cast f v = Raise OverflowError)
          ∧ (cast f v = Raise OverflowError ↔
             ∃ z, v = VInt z ∧ ¬ (- 2 ^ 31 ≤ z < 2 ^ 31)))
       ∧ (∀ s, s ≠ "null"%string →
          cast f (VStr s) =
          d ← parse s;
          Ok (VDatetime (if tzinfo d is None then tzadd default_tz d else d)))
       ∧ (∀ d, cast f (VDatetime d) =
               Ok (VDatetime
                     (if tzinfo d is None then tzadd default_tz d else d)))
       ∧ (∀ v r, cast f v = Ok r →
          r = VNone ∧ (v = VNone ∨ v = VStr "null") ∨ aware r)).
Proof.
  split; [|split; [|split]].
  - intros T args kw f Hf. rewrite (Field_init_cast _ _ _ _ Hf).
    split; [done|]. split; [apply Field_cast_same|].
    split; [apply Field_cast_other|].
    intros HT v r Hv Hr.
    destruct (Field_cast_type T v r HT Hr) as [[_ ->]|Hty]; done.
  - auto using int_type_sound, str_type_sound, datetime_type_sound.
  - intros args kw f s Hf. rewrite (Field_init_cast int_type args kw f Hf).
    unfold Field_cast. cbn. split; [|split].
    + destruct (parse_int s); split; done.
    + intros z. destruct (parse_int s) as [z0|]; split; try done;
        by intros [= ->].
    + intros Hs. rewrite parse_int_no_digit; [done|]. by apply Forall_forall.
  - intros args kw f Hf. rewrite (DateField_init_cast _ _ _ _ _ _ Hf).
    split; [done|]. split; [done|].
    split; [apply DateField_cast_error|].
    split; [|split; [done | apply DateField_cast_result]].
    intros s Hs. unfold DateField_cast, DateField_loads. cbn.
    rewrite (bool_decide_eq_true_2 (TStr = TStr)) by done.
    rewrite (bool_decide_eq_false_2 (s = "null"%string)) by done.
    by destruct (parse s).
Qed.

(** C6 fails as it is stated: the string ['null'] is not [None], and a
    datetime field casts it to [None], which is not a timezone-aware
    value. *)
Lemma cast_null_not_aware :
  VStr "null" ≠ VNone
  ∧ ¬ aware VNone
  ∧ ∀ unpickle parse default_tz args kw,
      ∃ f, DateField_init unpickle parse default_tz args kw = Ok f
           ∧ cast f (VStr "null") = Ok VNone.
Proof.
  split; [done|]. split; [by intros (d & ? & _)|].
  intros. eexists. split; reflexivity.
Qed.

(** C7 at [IntField(some_keyword=True)]: the descriptor is built, the
    unknown keyword is dropped; in general the constructor of the base class
    returns whatever the keywords are. *)
Theorem init_ignores_keywords :
  IntField_init [] {[ "some_keyword"%string := VBool true ]} =
    Ok {| field_type := int_type; primary_key := VBool false;
          cast := Field_cast int_type |}
  ∧ ∀ T args kw, returns (Field_init (Some T) args kw).
Proof. split; [reflexivity|]. intros. eexists. reflexivity. Qed.

(** C10. Casting the result of a successful cast returns that same value,
    which equals itself: for the base class with any type whose call
    returns instances of it, and for the integer, string and datetime
    fields as they are built. A value of the declared type, and an aware
    datetime given to a datetime field, pass through unchanged. *)
Theorem cast_idempotent (py_repr : value → string)
    (unpickle parse : string → result datetime) (default_tz : Z) :
  (∀ T args kw f, Field_init (Some T) args kw = Ok f → type_sound T →
     ∀ v r, cast f v = Ok r → cast f r = Ok r ∧ py_eq r r = Ok true)
  ∧ (∀ args kw f,
       IntField_init args kw = Ok f
       ∨ StringField_init py_repr args kw = Ok f
       ∨ DateField_init unpickle parse default_tz args kw = Ok f →
       ∀ v r, cast f v = Ok r → cast f r = Ok r ∧ py_eq r r = Ok true)
  ∧ (∀ T args kw f v, Field_init (Some T) args kw = Ok f →
       type_of v = type_tag T → cast f v = Ok v)
  ∧ (∀ args kw f d,
       DateField_init unpickle parse default_tz args kw = Ok f →
       is_Some (tzinfo d) → cast f (VDatetime d) = Ok (VDatetime d)).
Proof.
  assert (Hbase : ∀ T args kw f, Field_init (Some T) args kw = Ok f →
            type_sound T → ∀ v r, cast f v = Ok r →
            cast f r = Ok r ∧ py_eq r r = Ok true).
  { intros T args kw f Hf HT v r. rewrite (Field_init_cast _ _ _ _ Hf).
    intros Hr. split; [exact (Field_cast_idem T v r HT Hr) | apply py_eq_refl]. }
  split; [exact Hbase|]. split; [|split].
  - intros args kw f [Hf|[Hf|Hf]] v r.
    + exact (Hbase int_type args kw f Hf int_type_sound v r).
    + exact (Hbase (str_type py_repr) args kw f Hf (str_type_sound _) v r).
    + rewrite (DateField_init_cast _ _ _ _ _ _ Hf). intros Hr.
      split; [exact (DateField_cast_idem _ _ _ v r Hr) | apply py_eq_refl].
  - intros T args kw f v Hf. rewrite (Field_init_cast _ _ _ _ Hf).
    apply Field_cast_same.
  - intros args kw f d Hf. rewrite (DateField_init_cast _ _ _ _ _ _ Hf).
    apply DateField_cast_aware.
Qed.

(** [cast_spec] at [IntField(primary_key=True)], the strings ['abc'] and
    ['- 5'], and a datetime field whose parser refuses every string, given
    [True] and 2 ** 31. *)
Lemma cast_spec_witness :
  cast Sample.x_field VNone = Ok VNone
  ∧ cast Sample.x_field (VStr "abc") = Raise ValueError
  ∧ cast Sample.x_field (VStr "- 5") = Ok (VInt (-5))
  ∧ ∃ f, DateField_init (λ _, Raise TypeError) (λ _, Raise ValueError) 0
           [] ∅ = Ok f
         ∧ cast f (VInt (2 ^ 31)) = Raise OverflowError
         ∧ cast f (VBool true) ≠ Raise OverflowError.
Proof.
  destruct (cast_spec (λ _, ""%string) (λ _, Raise TypeError)
              (λ _, Raise ValueError) 0) as (Hbase & _ & Hint & Hdate).
  split; [|split; [|split]].
  - exact (proj1 (Hbase int_type [] {[ "primary_key"%string := VBool true ]}
                    Sample.x_field eq_refl)).
  - apply (Hint [] {[ "primary_key"%string := VBool true ]}).
    + reflexivity.
    + repeat constructor.
  - apply (Hint [] {[ "primary_key"%string := VBool true ]} _ "- 5"%string).
    + reflexivity.
    + reflexivity.
  - eexists. split; [reflexivity|].
    destruct (Hdate [] ∅ _ eq_refl) as (_ & _ & Herr & _).
    split.
    + destruct (Herr (VInt (2 ^ 31))) as [_ Hover]; [done..|].
      apply Hover. exists (2 ^ 31). split; [done | lia].
    + destruct (Herr (VBool true)) as [_ Hover]; [done..|].
      intros (z & Hz & _)%Hover. discriminate.
Defined.

(** [cast_idempotent] at [IntField(primary_key=True)] and the string
    ['12']. *)
Lemma cast_idempotent_witness :
  cast Sample.x_field (VStr "12") = Ok (VInt 12)
  ∧ cast Sample.x_field (VInt 12) = Ok (VInt 12)
  ∧ py_eq (VInt 12) (VInt 12) = Ok true.
Proof.
  destruct (cast_idempotent (λ _, ""%string) (λ _, Raise TypeError)
              (λ _, Raise ValueError) 0) as (Hbase & _ & _ & _).
  split; [reflexivity|].
  apply (Hbase int_type [] {[ "primary_key"%string := VBool true ]}
           Sample.x_field) with (v := VStr "12").
  - reflexivity.
  - exact int_type_sound.
  - reflexivity.
Defined.

End FieldsSpec.

(** ** Model instances *)

Module ModelSpec.

Import Fields Model PyFacts.

(** An assignment to a field the instance does not hold yet stores the cast
    value and leaves [_dirty] alone. *)
Lemma assign_field_absent (M : Meta) (self : instance) attr f val val' :
  fields M !! attr = Some f → attrs self !! attr = None →
  cast f val = Ok val' →
  assign_field M self attr val =
  Ok {| cls := cls self; attrs := <[attr := val']> (attrs self);
        _dirty := _dirty self; _pk := _pk self |}.
Proof. intros Hf Ha Hc. unfold assign_field. by rewrite Hf, Hc, Ha. Qed.

(** An assignment to a field the instance holds, outside the primary key or
    on a primary-key field that holds [None]. *)
Lemma assign_field_plain (M : Meta) (self : instance) attr f val val' curr :
  fields M !! attr = Some f → attrs self !! attr = Some curr →
  attr ∉ pk_fields M ∨ curr = VNone → cast f val = Ok val' →
  assign_field M self attr val =
  changed ← py_ne curr val';
  Ok {| cls := cls self; attrs := <[attr := val']> (attrs self);
        _dirty := changed; _pk := _pk self |}.
Proof.
  intros Hf Ha Hpk Hc. unfold assign_field. rewrite Hf, Hc, Ha. cbn.
  destruct Hpk as [Hpk| ->].
  - by rewrite bool_decide_eq_false_2.
  - by case_bool_decide.
Qed.

(** An assignment to a primary-key field that holds a value other than
    [None]. *)
Lemma assign_field_pk (M : Meta) (self : instance) attr f val val' curr :
  fields M !! attr = Some f → attrs self !! attr = Some curr →
  attr ∈ pk_fields M → curr ≠ VNone → cast f val = Ok val' →
  assign_field M self attr val =
  match py_ne curr val' with
  | Ok false =>
      Ok {| cls := cls self; attrs := <[attr := val']> (attrs self);
            _dirty := false; _pk := _pk self |}
  | Ok true => _ ← pk M self; Raise RuntimeError
  | Raise e => Raise e
  | Outside => Outside
  end.
Proof.
  intros Hf Ha Hpk Hn Hc. unfold assign_field. rewrite Hf, Hc, Ha. cbn.
  rewrite bool_decide_eq_true_2 by done.
  replace (is_none curr) with false by (by destruct curr).
  destruct (py_ne curr val') as [[]|e|]; cbn; try done.
  by destruct (pk M self).
Qed.

(** Whatever assignment returns, the flag it leaves is the comparison of the
    stored with the new value when the field was held. *)
Lemma assign_field_dirty (M : Meta) (self self' : instance) attr f val val' curr :
  fields M !! attr = Some f → attrs self !! attr = Some curr →
  cast f val = Ok val' → assign_field M self attr val = Ok self' →
  py_ne curr val' = Ok (dirty self').
Proof.
  intros Hf Ha Hc. unfold assign_field. rewrite Hf, Hc, Ha. cbn.
  destruct (bool_decide (attr ∈ pk_fields M)); cbn.
  - destruct (is_none curr); cbn.
    + destruct (py_ne curr val'); cbn; [|done..]. by intros [= <-].
    + destruct (py_ne curr val') as [[]|e|]; cbn; try done.
      * by destruct (pk M self).
      * by intros [= <-].
  - destruct (py_ne curr val'); cbn; [|done..]. by intros [= <-].
Qed.

Lemma save_clean (M : Meta) (self self' : instance) :
  save M self = Ok self' → dirty self' = false.
Proof.
  unfold save. destruct (pk M self) as [p|e|]; cbn; [|done..].
  destruct p as [[]|]; try done; by intros [= <-].
Qed.

(** C2, as amended. An assignment to a schema field the instance does not
    hold yet (as at creation) stores the cast value and leaves [dirty] as it
    was, whatever the value; an assignment that returns after giving a held
    field a cast value different from the stored one leaves [dirty] true,
    and it does return when the field is outside the primary key or holds
    [None]; [dirty] is false once [save] has returned. *)
Theorem dirty_spec (M : Meta) (self : instance) :
  (∀ attr f val val', fields M !! attr = Some f →
     attrs self !! attr = None → cast f val = Ok val' →
     ∃ self', setattr M self attr val = Ok self'
              ∧ attrs self' !! attr = Some val'
              ∧ dirty self' = dirty self)
  ∧ (∀ attr f val val' curr self', fields M !! attr = Some f →
       attrs self !! attr = Some curr → cast f val = Ok val' →
       py_ne curr val' = Ok true →
       setattr M self attr val = Ok self' → dirty self' = true)
  ∧ (∀ attr f val val' curr, fields M !! attr = Some f →
       attrs self !! attr = Some curr → cast f val = Ok val' →
       py_ne curr val' = Ok true → attr ∉ pk_fields M ∨ curr = VNone →
       ∃ self', setattr M self attr val = Ok self' ∧ dirty self' = true)
  ∧ (∀ self', save M self = Ok self' → dirty self' = false).
Proof.
  assert (Hset : ∀ attr f val, fields M !! attr = Some f →
            setattr M self attr val = assign_field M self attr val).
  { intros attr f val Hf. unfold setattr.
    by rewrite bool_decide_eq_true_2 by (by rewrite Hf). }
  split; [|split; [|split]].
  - intros attr f val val' Hf Ha Hc. rewrite (Hset _ _ _ Hf).
    rewrite (assign_field_absent _ _ _ _ _ _ Hf Ha Hc).
    eexists. split; [done|]. split; [apply lookup_insert_eq | done].
  - intros attr f val val' curr self' Hf Ha Hc Hne. rewrite (Hset _ _ _ Hf).
    intros Hs. pose proof (assign_field_dirty _ _ _ _ _ _ _ _ Hf Ha Hc Hs).
    congruence.
  - intros attr f val val' curr Hf Ha Hc Hne Hpk. rewrite (Hset _ _ _ Hf).
    rewrite (assign_field_plain _ _ _ _ _ _ _ Hf Ha Hpk Hc), Hne.
    by eexists.
  - apply save_clean.
Qed.

(** C2 fails as it is stated. On an instance that holds no field and whose
    flag is false, the primary key is given the value 1: by the words of
    the claim the instance is dirty, in the code [dirty] is still false.
    Likewise when the primary key is assigned, the instance is saved, and a
    field it does not hold yet is then given the value 5, whatever the flag
    was at the start. *)
Lemma dirty_not_raised_at_creation :
  (dirty <$> run Sample.meta (Sample.blank false) [Assign "x" (VInt 1)]
     = Ok false
   ∧ claimed_dirty Sample.meta (Sample.blank false) false
       [Assign "x" (VInt 1)] = Ok true)
  ∧ (dirty <$> run Sample.meta (Sample.blank false) Sample.late_field = Ok false
     ∧ claimed_dirty Sample.meta (Sample.blank false) false Sample.late_field
       = Ok true)
  ∧ (dirty <$> run Sample.meta (Sample.blank true) Sample.late_field = Ok false
     ∧ claimed_dirty Sample.meta (Sample.blank true) true Sample.late_field
       = Ok true).
Proof. repeat split; vm_compute; reflexivity. Qed.

(** The other half of the gap: the flag is overwritten, not raised, so an
    assignment that changes nothing lowers it again. *)
Lemma unchanged_assignment_lowers_dirty :
  dirty <$> run Sample.meta (Sample.row 1 2) [Assign "n" (VInt 3)] = Ok true
  ∧ dirty <$> run Sample.meta (Sample.row 1 2) Sample.twice = Ok false
  ∧ claimed_dirty Sample.meta (Sample.row 1 2) false Sample.twice = Ok true.
Proof. repeat split; vm_compute; reflexivity. Qed.

(** [dirty_spec] on the sample model. *)
Lemma dirty_spec_witness :
  (∃ self', setattr Sample.meta (Sample.blank false) "n" (VStr "5") = Ok self'
            ∧ attrs self' !! "n"%string = Some (VInt 5)
            ∧ dirty self' = false)
  ∧ (∃ self', setattr Sample.meta (Sample.row 1 2) "n" (VInt 3) = Ok self'
              ∧ dirty self' = true)
  ∧ (∀ self', save Sample.meta (Sample.row 1 2) = Ok self' →
              dirty self' = false).
Proof.
  split; [|split].
  - apply (proj1 (dirty_spec Sample.meta (Sample.blank false))
             "n"%string Sample.n_field (VStr "5") (VInt 5));
      vm_compute; reflexivity.
  - apply (proj1 (proj2 (proj2 (dirty_spec Sample.meta (Sample.row 1 2))))
             "n"%string Sample.n_field (VInt 3) (VInt 3) (VInt 2));
      try (vm_compute; reflexivity).
    left. intros Hin. apply list_elem_of_singleton in Hin. discriminate.
  - apply (proj2 (proj2 (proj2 (dirty_spec Sample.meta (Sample.row 1 2))))).
Defined.

(** Comparing two values raises nothing but [TypeError]. *)
Lemma py_ne_error (a b : value) e : py_ne a b = Raise e → e = TypeError.
Proof.
  unfold py_ne, py_eq, datetime_eq.
  destruct a as [| | | |[? []]], b as [| | | |[? []]];
    cbn; try discriminate; by intros [= <-].
Qed.

(** Comparing two values returns or raises. *)
Lemma py_eq_inside (a b : value) : py_eq a b ≠ Outside.
Proof.
  unfold py_eq, datetime_eq.
  destruct a as [| | | |[? []]], b as [| | | |[? []]]; cbn; discriminate.
Qed.

Lemma py_ne_inside (a b : value) : py_ne a b ≠ Outside.
Proof.
  unfold py_ne. pose proof (py_eq_inside a b).
  by destruct (py_eq a b).
Qed.

Lemma mapM_getattr_error (self : instance) (l : list string) e :
  mapM (getattr self) l = Raise e → e = AttributeError.
Proof.
  induction l as [|a l IH]; cbn; [done|].
  destruct (getattr self a) as [v|r|] eqn:Hg; cbn.
  - destruct (mapM (getattr self) l); cbn; [done| |done].
    intros [= <-]. by apply IH.
  - intros [= <-]. unfold getattr in Hg.
    destruct (attrs self !! a); congruence.
  - done.
Qed.

Lemma mapM_getattr_inside (self : instance) (l : list string) :
  mapM (getattr self) l ≠ Outside.
Proof.
  induction l as [|a l IH]; cbn; [done|].
  destruct (getattr self a) as [v|r|] eqn:Hg; cbn; [|done|].
  - by destruct (mapM (getattr self) l).
  - unfold getattr in Hg. by destruct (attrs self !! a).
Qed.

(** Reading [pk] raises nothing but [AttributeError]. *)
Lemma pk_error (M : Meta) (self : instance) e :
  pk M self = Raise e → e = AttributeError.
Proof.
  unfold pk, compute_pk. destruct (_pk self); [done|].
  destruct (mapM (getattr self) (pk_fields M)) as [pks|r|] eqn:Hl; cbn.
  - by destruct pks as [|? []].
  - intros [= <-]. by eapply mapM_getattr_error.
  - done.
Qed.

(** Reading [pk] returns or raises. *)
Lemma pk_inside (M : Meta) (self : instance) : pk M self ≠ Outside.
Proof.
  unfold pk, compute_pk. destruct (_pk self); [done|].
  pose proof (mapM_getattr_inside self (pk_fields M)).
  destruct (mapM (getattr self) (pk_fields M)) as [pks|r|]; cbn; [|done..].
  by destruct pks as [|? []].
Qed.

Lemma setattr_field (M : Meta) (self : instance) attr f val :
  fields M !! attr = Some f →
  setattr M self attr val = assign_field M self attr val.
Proof.
  intros Hf. unfold setattr.
  by rewrite bool_decide_eq_true_2 by (by rewrite Hf).
Qed.

(** The three outcomes of an assignment to a primary-key field that holds a
    value other than [None]. *)
Lemma setattr_pk_cases (M : Meta) (self : instance) attr f curr val val' :
  fields M !! attr = Some f → attr ∈ pk_fields M →
  attrs self !! attr = Some curr → curr ≠ VNone → cast f val = Ok val' →
  (returns (setattr M self attr val) ↔ py_ne curr val' = Ok false)
  ∧ (setattr M self attr val = Raise RuntimeError ↔
     py_ne curr val' = Ok true ∧ returns (pk M self))
  ∧ (py_ne curr val' = Ok true → raises (setattr M self attr val)).
Proof.
  intros Hf Hpk Ha Hn Hc. rewrite (setattr_field _ _ _ _ _ Hf).
  rewrite (assign_field_pk _ _ _ _ _ _ _ Hf Ha Hpk Hn Hc).
  destruct (py_ne curr val') as [[]|e|] eqn:Hne.
  - destruct (pk M self) as [p|e|] eqn:Hp; cbn.
    + split; [split; [by intros [? ?] | done]|].
      split; [|by eexists]. split; [|done].
      intros _. split; [done | by eexists].
    + pose proof (pk_error _ _ _ Hp) as ->.
      split; [split; [by intros [? ?] | done]|].
      split; [|by eexists]. split; [done | by intros [_ [? ?]]].
    + by destruct (pk_inside M self).
  - split; [split; [done | by eexists]|].
    split; [|done]. split; [done | by intros [? _]].
  - pose proof (py_ne_error _ _ _ Hne) as ->.
    split; [split; [by intros [? ?] | done]|].
    split; [|done]. split; [done | by intros [? _]].
  - by destruct (py_ne_inside curr val').
Qed.

(** C3, as amended. On an instance whose primary-key field holds a value
    other than [None]: assigning a value whose cast is that stored value
    returns; an assignment whose cast succeeds returns exactly when the cast
    value equals the stored one, and raises [RuntimeError] exactly when it
    differs from it and [pk] can be read for the message; so does the
    assignment of [None], which differs from every stored value. *)
Theorem pk_assignment (M : Meta) (self : instance) attr f curr :
  fields M !! attr = Some f → attr ∈ pk_fields M →
  attrs self !! attr = Some curr → curr ≠ VNone →
  (∀ val, cast f val = Ok curr → returns (setattr M self attr val))
  ∧ (∀ val val', cast f val = Ok val' →
       (returns (setattr M self attr val) ↔ py_ne curr val' = Ok false)
       ∧ (setattr M self attr val = Raise RuntimeError ↔
          py_ne curr val' = Ok true ∧ returns (pk M self))
       ∧ (py_ne curr val' = Ok true → raises (setattr M self attr val)))
  ∧ (cast f VNone = Ok VNone → raises (setattr M self attr VNone)).
Proof.
  intros Hf Hpk Ha Hn.
  pose proof (λ val val', setattr_pk_cases M self attr f curr val val'
                            Hf Hpk Ha Hn) as Hcases.
  split; [|split; [exact Hcases|]].
  - intros val Hc. apply (Hcases val curr Hc), py_ne_refl.
  - intros Hc. apply (Hcases VNone VNone Hc).
    rewrite py_ne_None_r. by destruct curr.
Qed.

(** C3 fails as it is stated: the primary key of the sample row holds 1, and
    assigning it [None], which is not a different value other than [None],
    raises the error too. *)
Lemma pk_unset_raises :
  attrs (Sample.row 1 2) !! "x"%string = Some (VInt 1)
  ∧ setattr Sample.meta (Sample.row 1 2) "x" VNone = Raise RuntimeError.
Proof. split; vm_compute; reflexivity. Qed.

(** [pk_assignment] on the sample row: its key is 1; assigning ['1'] returns,
    assigning 2 and assigning [None] raise. *)
Lemma pk_assignment_witness :
  returns (setattr Sample.meta (Sample.row 1 2) "x" (VStr "1"))
  ∧ setattr Sample.meta (Sample.row 1 2) "x" (VInt 2) = Raise RuntimeError
  ∧ raises (setattr Sample.meta (Sample.row 1 2) "x" VNone).
Proof.
  destruct (pk_assignment Sample.meta (Sample.row 1 2) "x" Sample.x_field
              (VInt 1)) as (Hsame & Hall & Hnone).
  - vm_compute; reflexivity.
  - apply list_elem_of_singleton. reflexivity.
  - vm_compute; reflexivity.
  - discriminate.
  - split; [|split].
    + apply Hsame. vm_compute; reflexivity.
    + apply (Hall (VInt 2) (VInt 2)); [reflexivity|].
      split; [reflexivity | by eexists].
    + apply Hnone. reflexivity.
Defined.

Lemma tuple_eq_refl (xs : list value) : tuple_eq xs xs = Ok true.
Proof. induction xs as [|x xs IH]; cbn; [done|]. by rewrite py_eq_refl. Qed.

Lemma pkv_eq_refl (p : pkv) : pkv_eq p p = Ok true.
Proof. destruct p; cbn; [apply py_eq_refl | apply tuple_eq_refl]. Qed.

(** C9. [a == b] is true exactly when the two instances are of the same
    class and their [pk] values, both readable, are equal; with readable
    keys it is the conjunction of the two tests, so that instances of one
    class with the same key are equal whatever their other fields hold;
    against an instance of another class, or a value that is not a model
    instance ([None] among them), it is false and nothing is raised;
    [a != b] returns the negation of what [a == b] returns. *)
Theorem eq_spec (M : Meta) (a : instance) :
  (∀ b, eq M a (OModel b) = Ok true ↔
        cls a = cls b
        ∧ ∃ pa pb, pk M a = Ok pa ∧ pk M b = Ok pb ∧ pkv_eq pa pb = Ok true)
  ∧ (∀ b pa pb e, pk M a = Ok pa → pk M b = Ok pb → pkv_eq pa pb = Ok e →
       eq M a (OModel b) = Ok (bool_decide (cls a = cls b) && e))
  ∧ (∀ b p, cls a = cls b → pk M a = Ok p → pk M b = Ok p →
       eq M a (OModel b) = Ok true)
  ∧ (∀ b b', cls b = cls b' → pk M b = pk M b' →
       eq M a (OModel b) = eq M a (OModel b'))
  ∧ (∀ b, cls a ≠ cls b → eq M a (OModel b) = Ok false)
  ∧ (∀ v, eq M a (OValue v) = Ok false)
  ∧ (∀ o e, eq M a o = Ok e ↔ ne M a o = Ok (negb e)).
Proof.
  assert (Hval : ∀ b pa pb e, pk M a = Ok pa → pk M b = Ok pb →
            pkv_eq pa pb = Ok e →
            eq M a (OModel b) = Ok (bool_decide (cls a = cls b) && e)).
  { intros b pa pb e Ha Hb He. cbn. rewrite Ha, Hb. cbn. rewrite He.
    by case_bool_decide. }
  split; [|split; [exact Hval|split; [|split; [|split; [|split]]]]].
  - intros b. split.
    + cbn. case_bool_decide as Hc; [|done]. intros Hb. split; [done|].
      destruct (pk M a) as [pa| |]; [|done..].
      destruct (pk M b) as [pb| |]; [|done..]. by exists pa, pb.
    + intros (Hc & pa & pb & Ha & Hb & He). rewrite (Hval _ _ _ _ Ha Hb He).
      by rewrite bool_decide_eq_true_2.
  - intros b p Hc Ha Hb. rewrite (Hval _ _ _ _ Ha Hb (pkv_eq_refl p)).
    by rewrite bool_decide_eq_true_2.
  - intros b b' Hc Hp. cbn. by rewrite Hc, Hp.
  - intros b Hc. cbn. by rewrite bool_decide_eq_false_2.
  - done.
  - intros o e. unfold ne. split; [by intros ->|].
    destruct (eq M a o) as [e'| |]; cbn; [|done..].
    intros [= He]. f_equal. by destruct e, e'.
Qed.

(** [eq_spec] on two rows of the sample model with the key 1. *)
Lemma eq_spec_witness :
  eq Sample.meta (Sample.row 1 2) (OModel (Sample.row 1 5)) = Ok true
  ∧ ne Sample.meta (Sample.row 1 2) (OModel (Sample.row 1 5)) = Ok false.
Proof.
  destruct (eq_spec Sample.meta (Sample.row 1 2))
    as (_ & _ & Hsame & _ & _ & _ & Hne).
  assert (eq Sample.meta (Sample.row 1 2) (OModel (Sample.row 1 5)) = Ok true)
    as Heq by (by apply (Hsame _ (PSingle (VInt 1)))).
  split; [exact Heq|]. by apply (Hne _ true).
Defined.

End ModelSpec.

(** ** Managers *)

Module ManagerSpec.

Import Manager.

Section Sorter.
Context {K I : Type} `{Countable K}.
Context (key_le : relation K) `{!RelDecision key_le}.
Implicit Types (m : gmap K I) (ks : list K) (kl : list (K * I)).

Local Abbreviation look := Manager.entry.

Lemma omap_look_entries m kl :
  Forall (λ p, m !! p.1 = Some p.2) kl → omap (look m) kl.*1 = kl.
Proof.
  induction 1 as [|[k i] kl Hk _ IH]; [done|]. cbn in *.
  unfold entry at 1. rewrite Hk. cbn. by rewrite IH.
Qed.

Lemma omap_look_snd m ks : (omap (look m) ks).*2 = omap (λ k, m !! k) ks.
Proof.
  induction ks as [|k ks IH]; [done|]. cbn. unfold entry at 1.
  destruct (m !! k); cbn; by rewrite IH.
Qed.

Lemma omap_look_fst m ks :
  Forall (λ k, is_Some (m !! k)) ks → (omap (look m) ks).*1 = ks.
Proof.
  induction 1 as [|k ks [i Hk] _ IH]; [done|]. cbn. unfold entry at 1.
  rewrite Hk. cbn. by rewrite IH.
Qed.

Lemma map_to_list_entries m : Forall (λ p, m !! p.1 = Some p.2) (map_to_list m).
Proof. apply Forall_forall. intros [k i]. apply elem_of_map_to_list. Qed.

(** The sequence [sorter] yields, with the key of each instance: the keys
    are the sorted keys of the mapping, and each entry of the mapping occurs
    once. *)
Lemma sorter_entries m :
  ∃ kl, kl.*2 = sorter key_le m false
        ∧ kl.*1 = merge_sort key_le (map_to_list m).*1
        ∧ kl ≡ₚ map_to_list m.
Proof.
  exists (omap (look m) (merge_sort key_le (map_to_list m).*1)).
  assert (omap (look m) (merge_sort key_le (map_to_list m).*1)
          ≡ₚ map_to_list m) as Hperm.
  { rewrite merge_sort_Permutation.
    by rewrite omap_look_entries by apply map_to_list_entries. }
  split; [apply omap_look_snd|]. split; [|done].
  apply omap_look_fst. rewrite merge_sort_Permutation.
  apply Forall_fmap, Forall_forall. intros [k i] Hki.
  apply elem_of_map_to_list in Hki. by exists i.
Qed.

Lemma sorter_Permutation m : sorter key_le m false ≡ₚ (map_to_list m).*2.
Proof. destruct (sorter_entries m) as (kl & <- & _ & ->). done. Qed.

Lemma elem_of_sorter m i : i ∈ sorter key_le m false ↔ ∃ k, m !! k = Some i.
Proof.
  rewrite sorter_Permutation, list_elem_of_fmap. split.
  - intros ([k i'] & -> & Hki). exists k. by apply elem_of_map_to_list.
  - intros [k Hk]. exists (k, i). split; [done|]. by apply elem_of_map_to_list.
Qed.

Lemma length_sorter m : length (sorter key_le m false) = size m.
Proof.
  rewrite sorter_Permutation, length_fmap. apply length_map_to_list.
Qed.

(** With a total, transitive order the keys come in ascending order, each
    of them once. *)
Lemma sorter_sorted `{!Total key_le, !Transitive key_le} m :
  ∃ kl, kl.*2 = sorter key_le m false
        ∧ StronglySorted key_le kl.*1
        ∧ NoDup kl.*1
        ∧ Forall (λ p, m !! p.1 = Some p.2) kl.
Proof.
  destruct (sorter_entries m) as (kl & Hkl & Hkeys & Hperm).
  exists kl. split; [done|]. rewrite Hkeys. split; [|split].
  - by apply StronglySorted_merge_sort.
  - rewrite merge_sort_Permutation. apply NoDup_fst_map_to_list.
  - rewrite Hperm. apply map_to_list_entries.
Qed.
End Sorter.

Section Operations.
Context {K I R : Type} `{Countable K} `{ML : !IModel.ModelLike I K}.
Context (key_le : relation K) `{!RelDecision key_le}.
Context (model_class : R → result I).
Implicit Types (self : manager K I) (elems : list (record R I)).

Local Abbreviation sorter := (Manager.sorter key_le).
Local Abbreviation dirty := (Manager.dirty key_le).
Local Abbreviation store := (Manager.store key_le).
Local Abbreviation build := (Manager.build model_class).
Local Abbreviation load_loop := (Manager.load_loop model_class).
Local Abbreviation load := (Manager.load model_class).

(** The manager is dirty when its own flag is set or when an instance it
    owns is dirty. *)
Lemma dirty_iff self :
  dirty self = true ↔
  _dirty self = true ∨ ∃ k i, _instances self !! k = Some i ∧ IModel.dirty i = true.
Proof.
  unfold Manager.dirty, instances. destruct (_dirty self).
  { split; [by left | done]. }
  rewrite existsb_exists. split.
  - intros (i & Hi & Hd). right.
    apply list_elem_of_In, elem_of_sorter in Hi as [k Hk]. by exists k, i.
  - intros [?|(k & i & Hk & Hd)]; [done|]. exists i. split; [|done].
    apply list_elem_of_In, elem_of_sorter. by exists k.
Qed.

Lemma dirty_false_iff self :
  dirty self = false ↔
  _dirty self = false ∧ ∀ k i, _instances self !! k = Some i → IModel.dirty i = false.
Proof.
  rewrite <-not_true_iff_false, dirty_iff. split.
  - intros Hn. split; [by destruct (_dirty self); [destruct Hn; left|]|].
    intros k i Hk. destruct (IModel.dirty i) eqn:Hd; [|done].
    destruct Hn. right. by exists k, i.
  - intros [Hf Hall] [?|(k & i & Hk & Hd)]; [congruence|].
    rewrite (Hall _ _ Hk) in Hd. done.
Qed.

Lemma filed_keys self (kl : list (K * I)) :
  filed self → Forall (λ p, _instances self !! p.1 = Some p.2) kl →
  omap IModel.pk kl.*2 = kl.*1.
Proof.
  intros Hf. induction 1 as [|[k i] kl Hk _ IH]; [done|]. cbn in *.
  by rewrite (Hf _ _ Hk), IH.
Qed.

(** C5. [store] leaves the mapping of the instances as it is, so no
    instance's flag changes, and clears the manager's own flag whether or
    not it writes. When [force] is set or the manager is dirty, [write] is
    given the owned instances, each once, in ascending order of the keys
    they are filed under, which are their [pk] when every instance is filed
    under its own; otherwise [write] is not called. *)
Theorem store_spec `{!Total key_le, !Transitive key_le} (force : bool) self :
  (store force self).1 = {| _instances := _instances self; _dirty := false |}
  ∧ (force = true ∨ dirty self = true →
       ∃ kl, (store force self).2 = Some kl.*2
             ∧ StronglySorted key_le kl.*1
             ∧ NoDup kl.*1
             ∧ kl ≡ₚ map_to_list (_instances self)
             ∧ (filed self → omap IModel.pk kl.*2 = kl.*1))
  ∧ (force = false → dirty self = false → (store force self).2 = None).
Proof.
  split; [by destruct force|]. split.
  - intros Hw.
    destruct (sorter_entries key_le (_instances self)) as (kl & Hkl & Hks & Hp).
    exists kl. split; [|split; [|split; [|split; [done|]]]].
    + rewrite Hkl. unfold Manager.store.
      destruct force; [done|]. destruct Hw as [?|Hd]; [done|]. by rewrite Hd.
    + rewrite Hks. by apply StronglySorted_merge_sort.
    + rewrite Hks, merge_sort_Permutation. apply NoDup_fst_map_to_list.
    + intros Hf. apply (filed_keys self); [done|].
      rewrite Hp. apply map_to_list_entries.
  - intros -> Hd. unfold Manager.store. by rewrite Hd.
Qed.

(** C8. When an entry is filed under [instance.pk], [delete] removes that
    entry, keeps the others and sets the manager's flag; when there is none
    the manager is returned as it was, nothing being raised; deleting twice
    gives what deleting once gives. *)
Theorem delete_spec (instance : I) self :
  (∀ k, IModel.pk instance = Some k → is_Some (_instances self !! k) →
     delete instance self =
       {| _instances := base.delete k (_instances self); _dirty := true |}
     ∧ _instances (delete instance self) !! k = None
     ∧ ∀ k', k' ≠ k →
         _instances (delete instance self) !! k' = _instances self !! k')
  ∧ ((∀ k, IModel.pk instance = Some k → _instances self !! k = None) →
     delete instance self = self)
  ∧ delete instance (delete instance self) = delete instance self.
Proof.
  split; [|split].
  - intros k Hk [i Hi]. unfold Manager.delete. rewrite Hk, Hi. cbn.
    split; [done|]. split; [apply lookup_delete_eq|].
    intros k' Hk'. by apply lookup_delete_ne.
  - intros Hno. unfold Manager.delete.
    destruct (IModel.pk instance) as [k|]; [|done]. by rewrite (Hno k).
  - unfold Manager.delete. destruct (IModel.pk instance) as [k|] eqn:Hk; [|done].
    destruct (_instances self !! k) as [i|] eqn:Hi; cbn.
    + by rewrite lookup_delete_eq.
    + by rewrite Hi.
Qed.

(** *** Loading *)

(** One turn of the loop on a record that builds into an instance with a
    key that is free. *)
Lemma load_loop_cons elem elems self (e : I) (k : K) :
  build elem = Ok e → IModel.pk e = Some k → _instances self !! k = None →
  load_loop (elem :: elems) self =
  load_loop elems {| _instances := <[k := e]> (_instances self);
                     _dirty := _dirty self |}.
Proof.
  intros He Hk Hfree. cbn. rewrite He. unfold pk_in, Manager.save.
  rewrite Hk, Hfree. by rewrite bool_decide_eq_false_2 by (by intros [? ?]).
Qed.

(** A turn of the loop that goes on has done exactly that. *)
Lemma load_loop_cons_inv elem elems self self' :
  load_loop (elem :: elems) self = (Ok (), self') →
  ∃ e k, build elem = Ok e ∧ IModel.pk e = Some k ∧ _instances self !! k = None
         ∧ load_loop elems {| _instances := <[k := e]> (_instances self);
                              _dirty := _dirty self |} = (Ok (), self').
Proof.
  cbn. destruct (build elem) as [e| |] eqn:He; [|done..].
  unfold pk_in, Manager.save. destruct (IModel.pk e) as [k|] eqn:Hk; [|done].
  case_bool_decide as Hin; [done|]. intros Hrest. exists e, k.
  split; [done|]. split; [done|]. split; [|done].
  destruct (_instances self !! k) eqn:Hl; [|done].
  destruct Hin. by eexists.
Qed.

(** What a loop that returns has built. *)
Lemma load_loop_ok elems self self' :
  load_loop elems self = (Ok (), self') →
  _dirty self' = false
  ∧ ∃ insts ks, mapM build elems = Ok insts
      ∧ Forall2 (λ i k, IModel.pk i = Some k) insts ks
      ∧ NoDup ks
      ∧ (∀ k, k ∈ ks → _instances self !! k = None)
      ∧ _instances self' = list_to_map (zip ks insts) ∪ _instances self.
Proof.
  revert self. induction elems as [|elem elems IH]; intros self.
  - intros [= <-]. split; [done|]. exists [], []. cbn.
    repeat split; [constructor .. | by intros ? ?%elem_of_nil |].
    by rewrite (left_id_L ∅ (∪)).
  - intros (e & k & He & Hk & Hfree & Hrest)%load_loop_cons_inv.
    destruct (IH _ Hrest) as (Hd & insts & ks & Hb & Hpk & Hnd & Hnew & Hm).
    split; [done|]. exists (e :: insts), (k :: ks). cbn in Hnew, Hm.
    assert (k ∉ ks) as Hk_ks.
    { intros Hin. specialize (Hnew _ Hin). by rewrite lookup_insert_eq in Hnew. }
    split; [|split; [|split; [|split]]].
    + cbn. rewrite He. cbn. by rewrite Hb.
    + by constructor.
    + by constructor.
    + intros k' [->|Hin]%elem_of_cons; [done|].
      specialize (Hnew _ Hin).
      destruct (decide (k = k')) as [->|Hne];
        [by rewrite lookup_insert_eq in Hnew|].
      by rewrite lookup_insert_ne in Hnew.
    + rewrite Hm. cbn. rewrite <-insert_union_r, insert_union_l; [done|].
      apply not_elem_of_list_to_map_1.
      rewrite fst_zip; [done|]. by rewrite (Forall2_length _ _ _ Hpk).
Qed.

(** The loop returns when every record builds into an instance with a key,
    and the keys are distinct and free. *)
Lemma load_loop_total elems self insts (ks : list K) :
  mapM build elems = Ok insts →
  Forall2 (λ i k, IModel.pk i = Some k) insts ks → NoDup ks →
  (∀ k, k ∈ ks → _instances self !! k = None) →
  ∃ self', load_loop elems self = (Ok (), self').
Proof.
  revert self insts ks. induction elems as [|elem elems IH];
    intros self insts ks Hb Hpk Hnd Hfree.
  - by eexists.
  - cbn in Hb. destruct (build elem) as [e| |] eqn:He; [|done..]. cbn in Hb.
    destruct (mapM build elems) as [insts'| |] eqn:Hb'; [|done..].
    injection Hb as <-. inversion Hpk as [|? k ? ks' Hk Hpk']; subst.
    inversion Hnd as [|? ? Hk_ks Hnd']; subst.
    rewrite (load_loop_cons _ _ _ e k He Hk) by (apply Hfree; left).
    apply (IH _ insts' ks'); [done..|].
    intros k' Hin. cbn. rewrite lookup_insert_ne by (by intros ->).
    apply Hfree. by right.
Qed.

(** After a prefix that loads, the loop goes on with the rest. *)
Lemma load_loop_app elems1 elems2 self self1 :
  load_loop elems1 self = (Ok (), self1) →
  load_loop (elems1 ++ elems2) self =
  load_loop elems2 {| _instances := _instances self1; _dirty := _dirty self |}.
Proof.
  revert self. induction elems1 as [|elem elems1 IH]; intros self.
  - intros [= <-]. by destruct self.
  - intros (e & k & He & Hk & Hfree & Hrest)%load_loop_cons_inv.
    rewrite <-app_comm_cons, (load_loop_cons _ _ _ e k He Hk Hfree).
    by rewrite (IH _ Hrest).
Qed.

(** What a [load] that returns has built. *)
Lemma load_ok elems self self' :
  load elems self = (Ok (), self') →
  _dirty self' = false
  ∧ ∃ insts ks, mapM build elems = Ok insts
      ∧ Forall2 (λ i k, IModel.pk i = Some k) insts ks
      ∧ NoDup ks
      ∧ _instances self' = list_to_map (zip ks insts).
Proof.
  intros Hl. destruct (load_loop_ok _ _ _ Hl)
    as (Hd & insts & ks & Hb & Hpk & Hnd & _ & Hm).
  split; [done|]. exists insts, ks. repeat split; try done.
  rewrite Hm. cbn. by rewrite (right_id_L ∅ (∪)).
Qed.

Lemma elem_of_zip_keys (insts : list I) (ks : list K) (i : I) :
  Forall2 (λ i k, IModel.pk i = Some k) insts ks → i ∈ insts →
  ∃ k, (k, i) ∈ zip ks insts.
Proof.
  induction 1 as [|i' k insts ks _ _ IH]; [by intros ?%elem_of_nil|].
  intros [->|Hin]%elem_of_cons.
  - exists k. left.
  - destruct (IH Hin) as [k' Hk']. exists k'. by right.
Qed.

(** The collection after a [load] that returns holds the instances built
    from the records, and nothing else. *)
Lemma load_owns elems self self' insts :
  load elems self = (Ok (), self') → mapM build elems = Ok insts →
  ∀ i, i ∈ insts ↔ ∃ k, _instances self' !! k = Some i.
Proof.
  intros Hl Hb i.
  destruct (load_ok _ _ _ Hl) as (_ & insts' & ks & Hb' & Hpk & Hnd & Hm).
  rewrite Hb in Hb'. injection Hb' as <-. rewrite Hm. split.
  - intros Hin. destruct (elem_of_zip_keys _ _ _ Hpk Hin) as [k Hk].
    exists k. apply elem_of_list_to_map_1; [|done].
    rewrite fst_zip; [done|]. by rewrite (Forall2_length _ _ _ Hpk).
  - intros [k Hk]. by apply elem_of_list_to_map_2, elem_of_zip_r in Hk.
Qed.

(** What [mapM] has built comes from the records, one by one. *)
Lemma mapM_build_elem elems insts elem :
  mapM build elems = Ok insts → elem ∈ elems →
  ∃ i, build elem = Ok i ∧ i ∈ insts.
Proof.
  revert insts. induction elems as [|e elems IH]; intros insts; cbn.
  { by intros _ ?%elem_of_nil. }
  destruct (build e) as [i| |] eqn:He; cbn; [|done..].
  destruct (mapM build elems) as [insts'| |] eqn:Hb; cbn; [|done..].
  intros [= <-] [->|Hin]%elem_of_cons.
  - exists i. split; [done | left].
  - destruct (IH _ eq_refl Hin) as (i' & ? & ?).
    exists i'. split; [done | by right].
Qed.

Lemma mapM_build_inst elems insts i :
  mapM build elems = Ok insts → i ∈ insts →
  ∃ elem, elem ∈ elems ∧ build elem = Ok i.
Proof.
  revert insts. induction elems as [|e elems IH]; intros insts; cbn.
  { by intros [= <-] ?%elem_of_nil. }
  destruct (build e) as [i'| |] eqn:He; cbn; [|done..].
  destruct (mapM build elems) as [insts'| |] eqn:Hb; cbn; [|done..].
  intros [= <-] [->|Hin]%elem_of_cons.
  - exists e. split; [left | done].
  - destruct (IH _ eq_refl Hin) as (e' & ? & ?).
    exists e'. split; [by right | done].
Qed.

Lemma elem_of_zip_pk (insts : list I) (ks : list K) (k : K) (i : I) :
  Forall2 (λ i k, IModel.pk i = Some k) insts ks → (k, i) ∈ zip ks insts →
  IModel.pk i = Some k.
Proof.
  induction 1 as [|i' k' insts ks Hk _ IH]; cbn; [by intros ?%elem_of_nil|].
  intros [[= -> ->]|Hin]%elem_of_cons; [done | by apply IH].
Qed.

(** C4. [load] starts from the cleared collection and takes the records in
    turn; a record that is a dictionary is given to the model class, whose
    instance stands for it, and a record that is an instance is taken as it
    is. When [load] returns, every record was built into an instance, the
    keys of these instances are distinct, each record's instance is held
    under its [pk], the collection holds nothing else, and the manager's
    flag is false; it does return when the records build into instances
    with distinct keys. When the records before [elem] load and the key of
    [elem] is one of theirs, [load] raises [KeyError] at [elem]: the
    collection is left with the records before it, the earlier instance
    still under that key, and the later records are not read. *)
Theorem load_spec elems self :
  load elems self = load_loop elems (clear self)
  ∧ _instances (clear self) = ∅
  ∧ ((∀ d, build (Raw d) = model_class d) ∧ (∀ e, build (Built e) = Ok e))
  ∧ (∀ self', load elems self = (Ok (), self') →
       _dirty self' = false
       ∧ (∃ insts ks, mapM build elems = Ok insts
           ∧ Forall2 (λ i k, IModel.pk i = Some k) insts ks
           ∧ NoDup ks
           ∧ _instances self' = list_to_map (zip ks insts))
       ∧ (∀ elem, elem ∈ elems →
            ∃ i k, build elem = Ok i ∧ IModel.pk i = Some k
                   ∧ _instances self' !! k = Some i)
       ∧ (∀ k i, _instances self' !! k = Some i →
            IModel.pk i = Some k ∧ ∃ elem, elem ∈ elems ∧ build elem = Ok i))
  ∧ (∀ insts ks, mapM build elems = Ok insts →
       Forall2 (λ i k, IModel.pk i = Some k) insts ks → NoDup ks →
       ∃ self', load elems self = (Ok (), self'))
  ∧ (∀ elems1 elem elems2 self1 e k, elems = elems1 ++ elem :: elems2 →
       load elems1 self = (Ok (), self1) →
       build elem = Ok e → IModel.pk e = Some k →
       is_Some (_instances self1 !! k) →
       load elems self =
       (Raise KeyError,
        {| _instances := _instances self1;
           _dirty := bool_decide (0 < count self)%nat |})).
Proof.
  split; [done|]. split; [done|]. split; [done|]. split; [|split].
  - intros self' Hl.
    destruct (load_ok _ _ _ Hl) as (Hd & insts & ks & Hb & Hpk & Hnd & Hm).
    assert ((zip ks insts).*1 = ks) as Hfst.
    { rewrite fst_zip; [done|]. by rewrite (Forall2_length _ _ _ Hpk). }
    split; [done|]. split; [by exists insts, ks|]. split.
    + intros elem Hin.
      destruct (mapM_build_elem _ _ _ Hb Hin) as (i & He & Hi).
      destruct (elem_of_zip_keys _ _ _ Hpk Hi) as [k Hk].
      exists i, k. split; [done|]. split; [by eapply elem_of_zip_pk|].
      rewrite Hm. apply elem_of_list_to_map_1; [by rewrite Hfst | done].
    + intros k i Hk. rewrite Hm in Hk. apply elem_of_list_to_map_2 in Hk.
      split; [by eapply elem_of_zip_pk|].
      apply elem_of_zip_r in Hk. by eapply mapM_build_inst.
  - intros insts ks Hb Hpk Hnd.
    by apply (load_loop_total _ _ insts ks).
  - intros elems1 elem elems2 self1 e k -> Hl He Hk Hin.
    unfold Manager.load. rewrite (load_loop_app _ _ _ _ Hl). cbn.
    rewrite He. unfold pk_in. rewrite Hk. cbn.
    by rewrite bool_decide_eq_true_2.
Qed.

(** C1, as amended. After a [load] that returned, the manager's own flag is
    false, so the manager is dirty exactly when one of the loaded instances
    is; a [store] without [force] that follows leaves the manager as it is
    and calls [write] exactly when one of them is dirty: it writes nothing
    exactly when every instance built from the records is clean. *)
Theorem load_store elems self self' :
  load elems self = (Ok (), self') →
  _dirty self' = false
  ∧ (dirty self' = true ↔
     ∃ k i, _instances self' !! k = Some i ∧ IModel.dirty i = true)
  ∧ ((store false self').2 = None ↔
     ∀ k i, _instances self' !! k = Some i → IModel.dirty i = false)
  ∧ (∀ insts, mapM build elems = Ok insts →
       ((store false self').2 = None ↔
        Forall (λ i, IModel.dirty i = false) insts))
  ∧ (store false self').1 = self'.
Proof.
  intros Hl.
  destruct (load_ok _ _ _ Hl) as (Hd & insts & ks & Hb & Hpk & Hnd & Hm).
  assert (Hstore : (store false self').2 = None ↔
            ∀ k i, _instances self' !! k = Some i → IModel.dirty i = false).
  { unfold Manager.store. destruct (dirty self') eqn:Hdirty; cbn.
    - split; [done|]. intros Hall.
      apply not_false_iff_true in Hdirty. destruct Hdirty.
      by apply dirty_false_iff.
    - split; [|done]. intros _. by apply dirty_false_iff. }
  split; [done|]. split; [|split; [done|split]].
  - rewrite dirty_iff, Hd. split; [by intros [?|?] | by right].
  - intros insts' Hb'. rewrite Hstore, Forall_forall.
    pose proof (load_owns _ _ _ _ Hl Hb') as Hown. split.
    + intros Hall i [k Hk]%Hown. by apply (Hall k).
    + intros Hall k i Hk. apply Hall, Hown. by exists k.
  - unfold Manager.store. destruct self' as [m d]. cbn in *. by subst d.
Qed.

End Operations.

(** C1 fails as it is stated: [read] yields one instance, the row whose [n]
    was changed after it was saved; [load] returns, and the [store] that
    follows, without [force], gives that instance to [write]. *)
Lemma store_after_load_writes :
  Model.setattr Sample.meta (Sample.row 1 2) "n" (VInt 3) = Ok Sample.edited
  ∧ (load Sample.model_class [Built Sample.edited] new).1 = Ok ()
  ∧ (store Z.le false
       (load Sample.model_class [Built Sample.edited] new).2).2
    = Some [Sample.edited].
Proof. repeat split; vm_compute; reflexivity. Qed.

(** [store_spec] on the loaded sample manager, with [force]. *)
Lemma store_spec_witness :
  ∃ kl, (store Z.le true Sample.loaded).2 = Some kl.*2
        ∧ StronglySorted Z.le kl.*1
        ∧ kl ≡ₚ map_to_list (_instances Sample.loaded).
Proof.
  destruct (store_spec Z.le true Sample.loaded) as (_ & Hwrite & _).
  destruct (Hwrite (or_introl eq_refl)) as (kl & Hkl & Hsorted & _ & Hperm & _).
  by exists kl.
Defined.

(** [delete_spec] on the loaded sample manager and the row 3, 1. *)
Lemma delete_spec_witness :
  _instances (delete (Sample.row 3 1) Sample.loaded) !! 3 = None
  ∧ _dirty (delete (Sample.row 3 1) Sample.loaded) = true.
Proof.
  destruct (delete_spec (Sample.row 3 1) Sample.loaded) as (Hdel & _ & _).
  destruct (Hdel 3) as (Heq & Hgone & _).
  - reflexivity.
  - exists (Sample.row 3 1). vm_compute; reflexivity.
  - split; [exact Hgone|]. by rewrite Heq.
Defined.

(** [load_spec] on the sample storage, an instance and a dictionary, which
    loads: the row built from the dictionary is held under its key. On two
    rows with the key 1 the second one is refused. *)
Lemma load_spec_witness :
  (∃ self', load Sample.model_class Sample.stored new = (Ok (), self')
            ∧ _instances self' !! 2 = Some (Sample.row 2 2)
            ∧ _instances self' !! 3 = Some (Sample.row 3 1)
            ∧ _dirty self' = false)
  ∧ load Sample.model_class [Built (Sample.row 1 2); Raw (1, 5)] new =
    (Raise KeyError,
     {| _instances := {[ 1 := Sample.row 1 2 ]}; _dirty := false |}).
Proof.
  split.
  - destruct (load_spec Sample.model_class Sample.stored new)
      as (_ & _ & [Hraw Hbuilt] & Hok & Htotal & _).
    destruct (Htotal [Sample.row 3 1; Sample.row 2 2] [3; 2]) as [self' Hl].
    + reflexivity.
    + by repeat constructor.
    + apply (bool_decide_unpack _). vm_compute. exact I.
    + exists self'. split; [done|].
      destruct (Hok self' Hl) as (Hd & _ & Helem & _).
      destruct (Helem (Raw (2, 2))) as (i2 & k2 & Hi2 & Hk2 & Hl2).
      { apply list_elem_of_In. right. left. reflexivity. }
      destruct (Helem (Built (Sample.row 3 1))) as (i3 & k3 & Hi3 & Hk3 & Hl3).
      { apply list_elem_of_In. left. reflexivity. }
      rewrite Hraw in Hi2. injection Hi2 as <-.
      rewrite Hbuilt in Hi3. injection Hi3 as <-.
      vm_compute in Hk2. injection Hk2 as <-.
      vm_compute in Hk3. injection Hk3 as <-.
      by repeat split.
  - destruct (load_spec Sample.model_class
                [Built (Sample.row 1 2); Raw (1, 5)] new)
      as (_ & _ & _ & _ & _ & Hdup).
    rewrite (Hdup [Built (Sample.row 1 2)] (Raw (1, 5)) []
               {| _instances := {[ 1 := Sample.row 1 2 ]}; _dirty := false |}
               (Sample.row 1 5) 1).
    + reflexivity.
    + reflexivity.
    + vm_compute; reflexivity.
    + reflexivity.
    + reflexivity.
    + exists (Sample.row 1 2). vm_compute; reflexivity.
Defined.

(** [load_store] on the sample storage, whose rows are clean. *)
Lemma load_store_witness :
  (store Z.le false Sample.loaded).2 = None
  ∧ (store Z.le false Sample.loaded).1 = Sample.loaded.
Proof.
  destruct (load_store Z.le Sample.model_class Sample.stored new Sample.loaded)
    as (_ & _ & _ & Hclean & Hsame).
  - vm_compute; reflexivity.
  - split; [|exact Hsame].
    apply (Hclean [Sample.row 3 1; Sample.row 2 2]); [reflexivity|].
    repeat constructor.
Defined.

End ManagerSpec.

(** ** Serialisation of dates: [redb/fields.py] *)

Module FieldsIOSpec.

Import Fields FieldsIO PyFacts FieldsSpec.

Section Dates.
Context (isoformat : datetime → string).
Context (parse : string → result datetime) (default_tz : Z).

Local Abbreviation tzadd := (Fields.tzadd default_tz).
Local Abbreviation DateField_loads := (Fields.DateField_loads parse default_tz).
Local Abbreviation DateField_dumps := (FieldsIO.DateField_dumps isoformat).

Lemma DateField_loads_str (s : string) :
  s ≠ "null"%string →
  DateField_loads (VStr s) =
  d ← parse s; Ok (VDatetime (if tzinfo d is None then tzadd d else d)).
Proof.
  intros Hs. unfold Fields.DateField_loads. cbn.
  rewrite (bool_decide_eq_false_2 (s = "null"%string)) by done.
  by destruct (parse s).
Qed.

(** What [loads] returns is [None] or an aware datetime. *)
Lemma DateField_loads_result (v r : value) :
  DateField_loads v = Ok r → r = VNone ∨ aware r.
Proof.
  destruct v as [|b|z|s|d]; try discriminate.
  - intros [= <-]. by left.
  - destruct (decide (s = "null"%string)) as [->|Hs].
    + intros [= <-]. by left.
    + rewrite DateField_loads_str by done.
      destruct (parse s) as [d| |]; cbn; [|done..]. intros [= <-]. right.
      eexists. split; [done|]. destruct (tzinfo d) eqn:Hd; cbn; eauto.
  - intros [= <-]. right.
    eexists. split; [done|]. destruct (tzinfo d) eqn:Hd; cbn; eauto.
Qed.

(** [loads] after [dumps] on a datetime field. [None] is written as
    ['null'] and read back as [None]. For a datetime whose ISO text the
    parser reads back, an aware value comes back as it was and a naive one
    with the default time zone. [dumps] raises [AttributeError] on any
    other value, and accepts whatever [loads] returns. *)
Theorem date_round_trip :
  (DateField_dumps VNone ≫= DateField_loads) = Ok VNone
  ∧ (∀ d, isoformat d ≠ "null"%string → parse (isoformat d) = Ok d →
       (DateField_dumps (VDatetime d) ≫= DateField_loads)
       = Ok (VDatetime (if tzinfo d is None then tzadd d else d))
       ∧ (is_Some (tzinfo d) →
          (DateField_dumps (VDatetime d) ≫= DateField_loads)
          = Ok (VDatetime d)))
  ∧ (∀ v, v ≠ VNone → type_of v ≠ TDatetime →
       DateField_dumps v = Raise AttributeError)
  ∧ (∀ v r, DateField_loads v = Ok r → ∃ s, DateField_dumps r = Ok (VStr s)).
Proof.
  split; [done|]. split; [|split].
  - intros d Hiso Hparse.
    assert ((DateField_dumps (VDatetime d) ≫= DateField_loads)
            = Ok (VDatetime (if tzinfo d is None then tzadd d else d))) as Hrt.
    { unfold FieldsIO.DateField_dumps. rewrite bind_Ok.
      rewrite DateField_loads_str by done. by rewrite Hparse. }
    split; [done|]. intros [o Ho]. by rewrite Hrt, Ho.
  - by intros [].
  - intros v r [->|(d & -> & _)]%DateField_loads_result; by eexists.
Qed.
End Dates.

(** [date_round_trip] with an ISO text and a parser that agree on one aware
    datetime. *)
Lemma date_round_trip_witness :
  (DateField_dumps (λ _, "2016-07-20T17:53:00+00:00"%string)
     (VDatetime (mk_datetime 0 (Some 0)))
   ≫= DateField_loads (λ _, Ok (mk_datetime 0 (Some 0))) 0)
  = Ok (VDatetime (mk_datetime 0 (Some 0))).
Proof.
  destruct (date_round_trip (λ _, "2016-07-20T17:53:00+00:00"%string)
              (λ _, Ok (mk_datetime 0 (Some 0))) 0) as (_ & Hrt & _).
  destruct (Hrt (mk_datetime 0 (Some 0))) as [_ Haware].
  - discriminate.
  - reflexivity.
  - apply Haware. by eexists.
Defined.

End FieldsIOSpec.

(** ** More on model instances: [alkali/model.py] *)

Module ModelMore.

Import Fields Model ModelInv PyFacts ModelSpec FieldsSpec.

(** An assignment under a name outside the schema that is data of the
    instance. *)
Lemma setattr_data (M : Meta) (self : instance) attr val :
  fields M !! attr = None → plain M attr = true →
  setattr M self attr val =
  Ok {| cls := cls self; attrs := <[attr := val]> (attrs self);
        _dirty := _dirty self; _pk := _pk self |}.
Proof.
  intros Hf Hp. unfold plain in Hp. rewrite Hf in Hp.
  rewrite bool_decide_eq_false_2 in Hp by (by intros [? ?]).
  cbn in Hp. apply negb_true_iff, bool_decide_eq_false in Hp.
  apply not_elem_of_cons in Hp as [Hd Hp].
  apply not_elem_of_cons in Hp as [Hm Hp].
  unfold setattr, dict_set. rewrite Hf.
  rewrite bool_decide_eq_false_2 by (by intros [? ?]).
  rewrite (bool_decide_eq_false_2 (attr = "_dirty"%string)) by done.
  rewrite (bool_decide_eq_false_2 (attr = "_pk"%string)) by done.
  by rewrite (bool_decide_eq_false_2 (attr ∈ class_names)) by done.
Qed.

(** What an assignment that returns has done. Under [_dirty] or [_pk],
    outside the schema, it has replaced the flag or the memo; under any
    other name the value it kept is stored under the name, the memo is the
    same and nothing else of the instance moves but the flag. *)
Lemma setattr_returns (M : Meta) (self self' : instance) attr val :
  setattr M self attr val = Ok self' →
  cls self' = cls self
  ∧ ((∃ v, kept M attr val = Ok v
           ∧ attrs self' = <[attr := v]> (attrs self)
           ∧ _pk self' = _pk self)
     ∨ (attr = "_dirty"%string ∧ fields M !! attr = None
        ∧ attrs self' = attrs self ∧ _pk self' = _pk self
        ∧ val = VBool (_dirty self'))
     ∨ (attr = "_pk"%string ∧ fields M !! attr = None
        ∧ attrs self' = attrs self ∧ _pk self' = Some (PSingle val)
        ∧ _dirty self' = _dirty self)).
Proof.
  unfold setattr, kept. destruct (fields M !! attr) as [f|] eqn:Hf.
  - rewrite bool_decide_eq_true_2 by (by eexists).
    unfold assign_field. rewrite Hf.
    destruct (cast f val) as [v| |]; cbn; [|done..].
    assert (∀ d, cls {| cls := cls self; attrs := <[attr := v]> (attrs self);
                        _dirty := d; _pk := _pk self |} = cls self
              ∧ ((∃ v0, Ok v = Ok v0
                    ∧ attrs {| cls := cls self;
                               attrs := <[attr := v]> (attrs self);
                               _dirty := d; _pk := _pk self |}
                      = <[attr := v0]> (attrs self)
                    ∧ _pk {| cls := cls self;
                             attrs := <[attr := v]> (attrs self);
                             _dirty := d; _pk := _pk self |} = _pk self)
                 ∨ False)) as Hdone.
    { intros d. split; [done|]. left. by exists v. }
    destruct (attrs self !! attr) as [curr|].
    + destruct (bool_decide (attr ∈ pk_fields M)); cbn.
      * destruct (is_none curr); cbn.
        -- destruct (py_ne curr v) as [d| |]; cbn; [|done..].
           intros [= <-]. destruct (Hdone d) as [? [?|[]]]. by split; [|left].
        -- destruct (py_ne curr v) as [[]| |]; cbn; [|..|done|done].
           ++ by destruct (pk M self).
           ++ intros [= <-]. destruct (Hdone false) as [? [?|[]]].
              by split; [|left].
      * destruct (py_ne curr v) as [d| |]; cbn; [|done..].
        intros [= <-]. destruct (Hdone d) as [? [?|[]]]. by split; [|left].
    + intros [= <-]. destruct (Hdone (_dirty self)) as [? [?|[]]].
      by split; [|left].
  - rewrite bool_decide_eq_false_2 by (by intros [? ?]). unfold dict_set.
    case_bool_decide as Hd.
    { destruct val as [|b| | |]; try done. intros [= <-]. split; [done|].
      right. left. by repeat split. }
    case_bool_decide as Hm.
    { intros [= <-]. split; [done|]. right. right. by repeat split. }
    case_bool_decide; [done|]. intros [= <-]. split; [done|].
    left. by exists val.
Qed.

(** An assignment under a name the instance holds nothing for, when the
    name files data. *)
Lemma setattr_absent (M : Meta) (self : instance) attr val :
  plain M attr = true → attrs self !! attr = None →
  setattr M self attr val =
  v ← kept M attr val;
  Ok {| cls := cls self; attrs := <[attr := v]> (attrs self);
        _dirty := _dirty self; _pk := _pk self |}.
Proof.
  intros Hp Ha. unfold kept. destruct (fields M !! attr) as [f|] eqn:Hf.
  - unfold setattr. rewrite bool_decide_eq_true_2 by (by eexists).
    unfold assign_field. rewrite Hf.
    destruct (cast f val) as [v| |]; cbn; [|done..]. by rewrite Ha.
  - by rewrite setattr_data.
Qed.

(** [__init__] on keywords the instance holds nothing for, as at creation,
    each of which files data: it returns exactly when the cast of every
    keyword that names a schema field succeeds; then every keyword is
    stored, cast when it names a schema field and as it is otherwise, the
    other attributes are kept, and neither [dirty] nor the memo of [pk] has
    moved. A keyword [_dirty] is no such name: outside the schema, the flag
    of the instance is then the value given for it. *)
Theorem init_creation (M : Meta) (self : instance) (kw : list (string * value)) :
  (NoDup kw.*1 → Forall (λ p, plain M p.1 = true) kw →
   Forall (λ p, attrs self !! p.1 = None) kw →
   (returns (init M self kw) ↔ Forall (λ p, returns (kept M p.1 p.2)) kw)
   ∧ ∀ self', init M self kw = Ok self' →
       dirty self' = dirty self ∧ _pk self' = _pk self ∧ cls self' = cls self
       ∧ (∀ name value, (name, value) ∈ kw →
            ∃ v, kept M name value = Ok v ∧ attrs self' !! name = Some v)
       ∧ (∀ name, name ∉ kw.*1 → attrs self' !! name = attrs self !! name))
  ∧ (fields M !! "_dirty"%string = None →
     ∀ b, ∃ self', init M self [("_dirty"%string, VBool b)] = Ok self'
                   ∧ dirty self' = b ∧ attrs self' = attrs self).
Proof.
  split.
  2:{ intros Hf b. cbn. unfold setattr, dict_set. rewrite Hf.
      rewrite bool_decide_eq_false_2 by (by intros [? ?]). cbn.
      by eexists. }
  revert self. induction kw as [|[name value] kw IH]; intros self Hnd Hpl Habs.
  { split; [split; [constructor | by eexists]|].
    intros self' [= <-]. repeat split; try done. by intros ?? ?%elem_of_nil. }
  cbn in Hnd. apply NoDup_cons in Hnd as [Hname Hnd].
  apply Forall_cons in Hpl as [Hp Hpl]. cbn in Hp.
  apply Forall_cons in Habs as [Hn Habs]. cbn in Hn.
  cbn [init]. rewrite (setattr_absent _ _ _ _ Hp Hn).
  destruct (kept M name value) as [v|e|] eqn:Hv; cbn.
  2,3:(split; [|done]; split; [by intros [? ?]|];
       intros [[? Hr] _]%Forall_cons; cbn in Hr; congruence).
  set (self1 := {| cls := cls self; attrs := <[name := v]> (attrs self);
                   _dirty := _dirty self; _pk := _pk self |}).
  assert (Forall (λ p, attrs self1 !! p.1 = None) kw) as Habs1.
  { apply Forall_forall. intros [n' v'] Hin. cbn.
    rewrite lookup_insert_ne.
    - by apply (proj1 (Forall_forall _ _) Habs (n', v')).
    - intros ->. apply Hname. by apply (list_elem_of_fmap_2 fst _ (n', v')). }
  destruct (IH self1 Hnd Hpl Habs1) as [Hret Hok]. split.
  - rewrite Hret, Forall_cons. cbn. rewrite Hv.
    split; [by intros; split; [eexists|] | by intros [_ ?]].
  - intros self' Hs. destruct (Hok _ Hs) as (Hd & Hpk & Hc & Hkw & Hrest).
    split; [done|]. split; [done|]. split; [done|]. split.
    + intros n' v' [[= -> ->]|Hin]%elem_of_cons; [|by apply Hkw].
      exists v. split; [done|]. rewrite Hrest by done. apply lookup_insert_eq.
    + intros n' Hn'. cbn in Hn'. apply not_elem_of_cons in Hn' as [Hne Hn'].
      rewrite Hrest by done. cbn. by rewrite lookup_insert_ne.
Qed.

Lemma held_cast_setattr (M : Meta) (self self' : instance) attr val :
  held_cast M self → setattr M self attr val = Ok self' → held_cast M self'.
Proof.
  intros Hh [_ Hs]%setattr_returns a f w Hf.
  destruct Hs as [(v & Hv & Ha & _)|[(_ & _ & Ha & _)|(_ & _ & Ha & _)]];
    rewrite Ha; [|by apply Hh..].
  destruct (decide (attr = a)) as [->|Hne].
  - rewrite lookup_insert_eq. intros [= <-]. unfold kept in Hv.
    rewrite Hf in Hv. by exists val.
  - rewrite lookup_insert_ne by done. by apply Hh.
Qed.

Lemma held_cast_save (M : Meta) (self self' : instance) :
  held_cast M self → save M self = Ok self' → held_cast M self'.
Proof.
  intros Hh. unfold save. destruct (pk M self) as [p| |]; cbn; [|done..].
  destruct p as [[]|]; try done; by intros [= <-].
Qed.

(** The values held for the schema fields are values the casts returned: an
    instance that holds no attribute is so, and assignments, [__init__],
    [save] and any history of assignments and saves keep it so. *)
Theorem held_cast_invariant (M : Meta) :
  (∀ self, attrs self = ∅ → held_cast M self)
  ∧ ∀ self, held_cast M self →
      (∀ attr val self', setattr M self attr val = Ok self' → held_cast M self')
      ∧ (∀ self', save M self = Ok self' → held_cast M self')
      ∧ (∀ kw self', init M self kw = Ok self' → held_cast M self')
      ∧ (∀ ops self', run M self ops = Ok self' → held_cast M self').
Proof.
  split.
  { intros self Hempty a f v _. by rewrite Hempty, lookup_empty. }
  intros self Hh.
  split; [by intros; eapply held_cast_setattr|].
  split; [by intros; eapply held_cast_save|]. split.
  - intros kw. revert self Hh. induction kw as [|[name value] kw IH];
      intros self Hh self'; cbn.
    + by intros [= <-].
    + destruct (setattr M self name value) as [self1| |] eqn:Hs; cbn; [|done..].
      apply IH. by eapply held_cast_setattr.
  - intros ops. revert self Hh. induction ops as [|[attr val|] ops IH];
      intros self Hh self'; cbn.
    + by intros [= <-].
    + destruct (setattr M self attr val) as [self1| |] eqn:Hs; cbn; [|done..].
      apply IH. by eapply held_cast_setattr.
    + destruct (save M self) as [self1| |] eqn:Hs; cbn; [|done..].
      apply IH. by eapply held_cast_save.
Qed.



(** *** The primary key does not move *)







(** *** Equality of instances *)











(** [init_creation]: a blank sample row built with [x='4', n=2] holds the
    integer 4 for [x] and is not dirty; built with [_dirty=True] it is. *)
Lemma init_creation_witness :
  (∃ self', init Sample.meta (Sample.blank false)
              [("x"%string, VStr "4"); ("n"%string, VInt 2)] = Ok self'
            ∧ attrs self' !! "x"%string = Some (VInt 4)
            ∧ dirty self' = false)
  ∧ (∃ self', init Sample.meta (Sample.blank false)
                [("_dirty"%string, VBool true)] = Ok self'
              ∧ dirty self' = true).
Proof.
  split.
  - destruct (init_creation Sample.meta (Sample.blank false)
                [("x"%string, VStr "4"); ("n"%string, VInt 2)])
      as [Hplain _].
    destruct Hplain as [Hret Hres].
    + apply (bool_decide_unpack _). vm_compute. exact I.
    + repeat constructor.
    + by repeat constructor.
    + destruct (proj2 Hret) as [self' Hs].
      { repeat constructor; eexists; vm_compute; reflexivity. }
      exists self'. split; [done|].
      destruct (Hres self' Hs) as (Hd & _ & _ & Hin & _).
      split; [|exact Hd].
      destruct (Hin "x"%string (VStr "4")) as (v & Hv & Hx).
      { apply list_elem_of_here. }
      rewrite Hx. vm_compute in Hv. by injection Hv as <-.
  - destruct (init_creation Sample.meta (Sample.blank false) []) as [_ Hflag].
    destruct (Hflag eq_refl true) as (self' & Hs & Hd & _).
    by exists self'.
Defined.

(** [held_cast_invariant]: the sample row that is keyed, saved and then
    given [n] holds cast values. *)
Lemma held_cast_invariant_witness :
  ∃ self', run Sample.meta (Sample.blank false) Sample.late_field = Ok self'
           ∧ held_cast Sample.meta self'.
Proof.
  destruct (held_cast_invariant Sample.meta) as [Hnew Hkeep].
  destruct (Hkeep (Sample.blank false) (Hnew (Sample.blank false) eq_refl))
    as (_ & _ & _ & Hrun).
  assert (∃ s, run Sample.meta (Sample.blank false) Sample.late_field = Ok s)
    as [s Hs] by (eexists; vm_compute; reflexivity).
  exists s. split; [done|]. by apply (Hrun Sample.late_field).
Defined.




End ModelMore.

(** ** More on managers: [alkali/manager.py] *)

Module ManagerMore.

Import Manager ManagerSpec.

Section Sorter.
Context {K I : Type} `{Countable K}.
Context (key_le : relation K) `{!RelDecision key_le}.
Implicit Types (m : gmap K I).

Lemma omap_reverse {A B} (f : A → option B) (l : list A) :
  omap f (reverse l) = reverse (omap f l).
Proof.
  induction l as [|x l IH]; [done|].
  rewrite reverse_cons, omap_app, IH.
  replace (omap f (x :: l)) with (omap f [x] ++ omap f l)
    by (by rewrite <-omap_app).
  rewrite reverse_app. f_equal. cbn. by destruct (f x).
Qed.

Lemma sorter_empty (rev : bool) : sorter key_le (∅ : gmap K I) rev = [].
Proof. unfold sorter. rewrite map_to_list_empty. by destruct rev. Qed.

(** With [reverse] the sequence of [sorter] is the ascending one read
    backwards: with a total, transitive order the keys come in descending
    order, each owned instance once. *)
Theorem sorter_reverse `{!Total key_le, !Transitive key_le} m :
  sorter key_le m true = reverse (sorter key_le m false)
  ∧ ∃ kl, kl.*2 = sorter key_le m true
          ∧ StronglySorted (flip key_le) kl.*1
          ∧ kl ≡ₚ map_to_list m.
Proof.
  assert (sorter key_le m true = reverse (sorter key_le m false)) as Hrev.
  { unfold sorter. apply omap_reverse. }
  split; [done|].
  destruct (sorter_entries key_le m) as (kl & Hkl & Hks & Hp).
  exists (reverse kl). rewrite Hrev, <-Hkl, !fmap_reverse.
  split; [done|]. split; [|by rewrite reverse_Permutation].
  apply Sorted_StronglySorted; [apply _|].
  apply Sorted_reverse. rewrite Hks. by apply Sorted_merge_sort.
Qed.
End Sorter.

Section Operations.
Context {K I R : Type} `{Countable K} `{ML : !IModel.ModelLike I K}.
Context (key_le : relation K) `{!RelDecision key_le}.
Context (model_class : R → result I).
Implicit Types (self : manager K I) (elems : list (record R I)).

Local Abbreviation sorter := (Manager.sorter key_le).
Local Abbreviation dirty := (Manager.dirty key_le).
Local Abbreviation store := (Manager.store key_le).
Local Abbreviation instances := (Manager.instances key_le).
Local Abbreviation build := (Manager.build model_class).
Local Abbreviation load_loop := (Manager.load_loop model_class).
Local Abbreviation load := (Manager.load model_class).

(** [save] refuses an instance whose [pk] is [None] and leaves the manager
    as it was; otherwise it files the instance under its [pk], replacing the
    instance that was there, keeps the other entries, raises the manager's
    flag when asked to, and the collection grows by one exactly when the key
    was free. *)
Theorem save_spec (instance : I) (mark : bool) self :
  (IModel.pk instance = None →
   save instance mark self = (Raise AssertionError, self))
  ∧ (∀ k, IModel.pk instance = Some k →
       ∃ self', save instance mark self = (Ok (), self')
         ∧ _instances self' !! k = Some instance
         ∧ (∀ k', k' ≠ k → _instances self' !! k' = _instances self !! k')
         ∧ _dirty self' = mark || _dirty self
         ∧ (mark = true → dirty self' = true)
         ∧ count self' = (if _instances self !! k is Some _ then count self
                          else S (count self))).
Proof.
  split.
  - intros Hk. unfold save. by rewrite Hk.
  - intros k Hk. unfold save. rewrite Hk. eexists. split; [done|]. cbn.
    split; [apply lookup_insert_eq|].
    split; [by intros k' Hk'; apply lookup_insert_ne|].
    split; [by destruct mark|]. split.
    + intros ->. done.
    + unfold count. cbn. rewrite map_size_insert.
      by destruct (_instances self !! k).
Qed.

(** The views of the collection agree: [instances] lists every owned
    instance once, [pks] every key once, and both are as long as
    [count]. *)
Theorem views_spec self :
  length (instances self) = count self
  ∧ length (pks self) = count self
  ∧ NoDup (pks self)
  ∧ (∀ k, k ∈ pks self ↔ is_Some (_instances self !! k))
  ∧ (∀ i, i ∈ instances self ↔ ∃ k, _instances self !! k = Some i).
Proof.
  split; [apply length_sorter|]. unfold pks, count.
  split; [by rewrite length_fmap, length_map_to_list|].
  split; [apply NoDup_fst_map_to_list|]. split.
  - intros k. rewrite list_elem_of_fmap. split.
    + intros ([k' i] & -> & Hi). exists i. by apply elem_of_map_to_list.
    + intros [i Hi]. exists (k, i). split; [done|]. by apply elem_of_map_to_list.
  - apply elem_of_sorter.
Qed.

(** [clear] leaves no instance. A manager that held some is then dirty, and
    a [store] gives [write] the empty sequence; one that held none is
    clean, and a [store] writes nothing. Clearing again gives the manager
    as [__init__] builds it. *)
Theorem clear_spec self :
  count (clear self) = 0%nat
  ∧ (dirty (clear self) = true ↔ _instances self ≠ ∅)
  ∧ (_instances self ≠ ∅ → (store false (clear self)).2 = Some [])
  ∧ (_instances self = ∅ → (store false (clear self)).2 = None)
  ∧ clear (clear self) = new.
Proof.
  assert (Hd : dirty (clear self) = bool_decide (0 < count self)%nat).
  { unfold Manager.dirty, Manager.instances, clear. cbn [_instances _dirty].
    rewrite sorter_empty. by destruct (bool_decide _). }
  assert (Hne : (0 < count self)%nat ↔ _instances self ≠ ∅).
  { unfold count. rewrite <-map_size_non_empty_iff. lia. }
  split; [apply map_size_empty|]. split; [|split; [|split]].
  - by rewrite Hd, bool_decide_eq_true.
  - intros Hm. unfold Manager.store. rewrite Hd.
    rewrite bool_decide_eq_true_2 by (by apply Hne).
    unfold clear. cbn [_instances]. by rewrite sorter_empty.
  - intros Hm. unfold Manager.store. rewrite Hd.
    rewrite bool_decide_eq_false_2; [done|]. rewrite Hne. by intros [].
  - reflexivity.
Qed.

Lemma filed_save (instance : I) (mark : bool) self :
  filed self → filed (save instance mark self).2.
Proof.
  intros Hf. unfold save. destruct (IModel.pk instance) as [k|] eqn:Hk; [|done].
  intros k' i. cbn. destruct (decide (k = k')) as [<-|Hne].
  - rewrite lookup_insert_eq. by intros [= <-].
  - rewrite lookup_insert_ne by done. apply Hf.
Qed.

Lemma filed_load_loop elems self : filed self → filed (load_loop elems self).2.
Proof.
  revert self. induction elems as [|elem elems IH]; intros self Hf; [done|].
  cbn. destruct (build elem) as [e| |]; [|done..].
  destruct (pk_in e self); [done|].
  pose proof (filed_save e false self Hf) as Hs.
  destruct (save e false self) as [[[]|?|] self1]; [|done..]. by apply IH.
Qed.

(** Every operation keeps each owned instance filed under its own [pk], so
    that no owned instance has [None] for [pk]: the manager of [__init__]
    is so, and [clear], [save], [delete], [store] and [load], whether it
    returns or raises, keep it so. *)
Theorem filed_invariant :
  filed (new : manager K I)
  ∧ ∀ self, filed self →
      filed (clear self)
      ∧ (∀ instance mark, filed (save instance mark self).2)
      ∧ (∀ instance, filed (delete instance self))
      ∧ (∀ force, filed (store force self).1)
      ∧ (∀ elems, filed (load elems self).2)
      ∧ (∀ k i, _instances self !! k = Some i → IModel.pk i ≠ None).
Proof.
  split; [by intros k i ?|]. intros self Hf.
  split; [by intros k i ?|]. split; [by intros; apply filed_save|].
  split; [|split; [|split]].
  - intros instance. unfold delete.
    destruct (IModel.pk instance) as [k|]; [|done].
    destruct (_instances self !! k); [|done].
    intros k' i' Hk'. cbn in Hk'. apply lookup_delete_Some in Hk' as [_ Hk'].
    by apply Hf.
  - by intros [].
  - intros elems. apply filed_load_loop. by intros k i ?.
  - intros k i Hk. by rewrite (Hf _ _ Hk).
Qed.

(** Saving an instance and deleting it again leaves no entry under its key,
    keeps the other entries and leaves the manager's flag raised; when the
    key was free the collection is the one before the two calls. *)
Theorem save_delete (instance : I) (mark : bool) self (k : K) :
  IModel.pk instance = Some k →
  _instances (delete instance (save instance mark self).2) !! k = None
  ∧ (∀ k', k' ≠ k →
       _instances (delete instance (save instance mark self).2) !! k'
       = _instances self !! k')
  ∧ _dirty (delete instance (save instance mark self).2) = true
  ∧ (_instances self !! k = None →
     _instances (delete instance (save instance mark self).2)
     = _instances self).
Proof.
  intros Hk. unfold save, delete. rewrite Hk. cbn.
  rewrite lookup_insert_eq. cbn.
  split; [apply lookup_delete_eq|]. split; [|split; [done|]].
  - intros k' Hk'. by rewrite lookup_delete_ne, lookup_insert_ne.
  - apply delete_insert_id.
Qed.

(** [delete] takes one off [count] when the key of the instance is in the
    collection and leaves [count] alone otherwise; on the manager of
    [__init__] it changes nothing. *)
Theorem delete_count (instance : I) self :
  count (delete instance self)
  = (if pk_in instance self then pred (count self) else count self)
  ∧ delete instance (new : manager K I) = new.
Proof.
  split.
  - unfold delete, pk_in, count.
    destruct (IModel.pk instance) as [k|]; [|done].
    destruct (_instances self !! k) as [i|] eqn:Hi; cbn.
    + apply map_size_delete_Some. by eexists.
    + done.
  - unfold delete. destruct (IModel.pk instance) as [k|]; [|done]. cbn.
    by rewrite lookup_empty.
Qed.

(** [store] never touches the flags of the instances: after a [store], a
    second one without [force] still calls [write] as long as an owned
    instance is dirty, with the sequence the first one was given, and it
    writes nothing exactly when every owned instance is clean. The manager a
    [store] leaves is left as it is by the next. *)
Theorem store_again (force : bool) self :
  (∀ force', (store force' (store force self).1).1 = (store force self).1)
  ∧ ((store false (store force self).1).2 = None ↔
     ∀ k i, _instances self !! k = Some i → IModel.dirty i = false)
  ∧ (∀ l, (store false (store force self).1).2 = Some l →
          (store force self).2 = Some l).
Proof.
  remember (store force self).1 as self1 eqn:H1.
  assert (H2 : self1 = {| _instances := _instances self; _dirty := false |})
    by (by rewrite H1; destruct force).
  clear H1. rename H2 into H1.
  assert (Hd : dirty self1 = true ↔
               ∃ k i, _instances self !! k = Some i ∧ IModel.dirty i = true).
  { rewrite dirty_iff, H1. cbn. split; [by intros [?|?] | by right]. }
  split; [by intros f; rewrite H1; destruct f|]. split.
  - unfold Manager.store at 1. cbn [snd].
    destruct (Manager.dirty key_le self1) eqn:Hdirty.
    + split; [done|]. intros Hall.
      destruct (proj1 Hd eq_refl) as (k & i & Hk & Hi).
      by rewrite (Hall _ _ Hk) in Hi.
    + split; [|done]. intros _ k i Hk. destruct (IModel.dirty i) eqn:Hi; [|done].
      assert (false = true) by (apply Hd; eauto). done.
  - intros l. unfold Manager.store at 1. cbn [snd].
    destruct (Manager.dirty key_le self1) eqn:Hdirty; [|done].
    intros [= <-]. rewrite H1. cbn [_instances].
    destruct (proj1 Hd eq_refl) as (k & i & Hk & Hi).
    assert (dirty self = true) as Hself by (apply dirty_iff; right; eauto).
    unfold Manager.store. destruct force; cbn [snd].
    + done.
    + by rewrite Hself.
Qed.

Lemma mapM_length {A B} (f : A → result B) (l : list A) (k : list B) :
  mapM f l = Ok k → length k = length l.
Proof.
  revert k. induction l as [|x l IH]; intros k; cbn.
  - by intros [= <-].
  - destruct (f x); cbn; [|done..]. destruct (mapM f l); cbn; [|done..].
    intros [= <-]. cbn. by rewrite (IH _ eq_refl).
Qed.

Lemma keys_unique (insts : list I) (ks ks' : list K) :
  Forall2 (λ i k, IModel.pk i = Some k) insts ks →
  Forall2 (λ i k, IModel.pk i = Some k) insts ks' → ks = ks'.
Proof.
  intros Hks. revert ks'. induction Hks as [|i k insts ks Hk _ IH];
    intros ks'; inversion 1 as [|? k' ? ks'' Hk' Hks']; subst; [done|].
  rewrite Hk in Hk'. injection Hk' as <-. by rewrite (IH _ Hks').
Qed.

(** A [load] that returns gives the same manager whatever the manager held
    before, the one a fresh manager gets, with one instance for each record;
    without records it gives the manager of [__init__]. *)
Theorem load_fresh elems self self' :
  load elems self = (Ok (), self') →
  load elems new = (Ok (), self')
  ∧ count self' = length elems
  ∧ (elems = [] → self' = new).
Proof.
  intros Hl.
  destruct (load_ok _ _ _ _ Hl) as (Hd & insts & ks & Hb & Hpk & Hnd & Hm).
  split; [|split].
  - destruct (load_loop_total model_class elems (clear new) insts ks Hb Hpk Hnd)
      as [self'' Hl'']; [by intros k _|].
    change (load elems new = (Ok (), self'')) in Hl''. rewrite Hl''.
    destruct (load_ok _ _ _ _ Hl'')
      as (Hd' & insts' & ks' & Hb' & Hpk' & _ & Hm').
    rewrite Hb in Hb'. injection Hb' as <-.
    rewrite <-(keys_unique _ _ _ Hpk Hpk') in Hm'.
    destruct self' as [m d], self'' as [m' d']. cbn in *. by subst.
  - unfold count. rewrite Hm, map_size_list_to_map.
    + rewrite length_zip_with, <-(Forall2_length _ _ _ Hpk),
        (mapM_length _ _ _ Hb). lia.
    + rewrite fst_zip; [done|]. by rewrite (Forall2_length _ _ _ Hpk).
  - intros ->. by injection Hl as <-.
Qed.

(** Where [load] stops. When the records before [elem] load, [load] raises
    at [elem] what the model class raises on it, or [AssertionError] when
    the instance has [None] for [pk]; the collection is left with the
    records before [elem], and the flag with what [clear] gave it. *)
Theorem load_stops elems1 elem elems2 self self1 :
  load elems1 self = (Ok (), self1) →
  (∀ e, build elem = Raise e →
     load (elems1 ++ elem :: elems2) self =
     (Raise e, {| _instances := _instances self1;
                  _dirty := bool_decide (0 < count self)%nat |}))
  ∧ (∀ i, build elem = Ok i → IModel.pk i = None →
       load (elems1 ++ elem :: elems2) self =
       (Raise AssertionError,
        {| _instances := _instances self1;
           _dirty := bool_decide (0 < count self)%nat |})).
Proof.
  intros Hl. split.
  - intros e He. unfold Manager.load.
    rewrite (load_loop_app _ _ _ _ _ Hl). cbn. by rewrite He.
  - intros i He Hk. unfold Manager.load.
    rewrite (load_loop_app _ _ _ _ _ Hl). cbn. rewrite He.
    unfold pk_in, save. by rewrite Hk.
Qed.

End Operations.

(** [sorter_reverse] on the loaded sample manager. *)
Lemma sorter_reverse_witness :
  sorter Z.le (_instances Sample.loaded) true
  = [Sample.row 3 1; Sample.row 2 2].
Proof.
  rewrite (proj1 (sorter_reverse Z.le (_instances Sample.loaded))).
  vm_compute. reflexivity.
Defined.

(** [save_spec]: a row with the key 2 takes the place of the row 2, 2; a
    row without a key is refused. *)
Lemma save_spec_witness :
  (∃ self', save (Sample.row 2 7) true Sample.loaded = (Ok (), self')
            ∧ _instances self' !! 2 = Some (Sample.row 2 7)
            ∧ count self' = 2%nat)
  ∧ save SampleMore.unkeyed true Sample.loaded
    = (Raise AssertionError, Sample.loaded).
Proof.
  destruct (save_spec Z.le (Sample.row 2 7) true Sample.loaded)
    as [_ Hsome].
  destruct (save_spec Z.le SampleMore.unkeyed true Sample.loaded)
    as [Hnone _].
  split.
  - destruct (Hsome 2 eq_refl) as (self' & Hs & Hl & _ & _ & _ & Hc).
    exists self'. split; [done|]. split; [done|]. rewrite Hc.
    vm_compute. reflexivity.
  - apply Hnone. reflexivity.
Defined.

(** [clear_spec]: the loaded sample manager, once cleared, writes the empty
    sequence. *)
Lemma clear_spec_witness :
  (Manager.store Z.le false (clear Sample.loaded)).2 = Some [].
Proof.
  destruct (clear_spec Z.le Sample.loaded) as (_ & _ & Hwrite & _).
  apply Hwrite. intros Hempty.
  apply (f_equal (λ m : gmap Z Model.instance, m !! 2)) in Hempty.
  vm_compute in Hempty. discriminate.
Defined.

(** [filed_invariant]: the loaded sample manager files every row under its
    key. *)
Lemma filed_invariant_witness : filed Sample.loaded.
Proof.
  destruct (filed_invariant Z.le Sample.model_class)
    as [Hnew Hkeep].
  destruct (Hkeep new Hnew) as (_ & _ & _ & _ & Hload & _).
  exact (Hload Sample.stored).
Defined.

(** [save_delete] on a row whose key 7 is free in the loaded sample
    manager. *)
Lemma save_delete_witness :
  _instances (delete (Sample.row 7 0) (save (Sample.row 7 0) false Sample.loaded).2)
  = _instances Sample.loaded.
Proof.
  assert (IModel.pk (Sample.row 7 0) = Some 7) as Hk
    by (vm_compute; reflexivity).
  destruct (save_delete (Sample.row 7 0) false Sample.loaded 7 Hk)
    as (_ & _ & _ & Hfree).
  apply Hfree. vm_compute. reflexivity.
Defined.

(** [store_again]: with the dirty row 1, 3 in the collection every [store]
    writes. *)
Lemma store_again_witness :
  (Manager.store Z.le false SampleMore.with_edited).2
  = Some [Sample.edited; Sample.row 2 2; Sample.row 3 1].
Proof.
  destruct (store_again Z.le false SampleMore.with_edited) as (_ & _ & Hsame).
  apply Hsame. vm_compute. reflexivity.
Defined.

(** [load_fresh]: loading the sample storage into the manager that already
    holds it. *)
Lemma load_fresh_witness :
  Manager.load Sample.model_class Sample.stored new = (Ok (), Sample.loaded)
  ∧ count Sample.loaded = 2%nat.
Proof.
  destruct (load_fresh Sample.model_class Sample.stored Sample.loaded
              Sample.loaded) as (Hnew & Hcount & _).
  - vm_compute. reflexivity.
  - by split.
Defined.

(** [load_stops]: after the row 3, 1 a row without a key stops the load. *)
Lemma load_stops_witness :
  Manager.load Sample.model_class
    ([Built (Sample.row 3 1)] ++ Built SampleMore.unkeyed :: [Raw (2, 2)]) new
  = (Raise AssertionError,
     {| _instances := {[ 3 := Sample.row 3 1 ]}; _dirty := false |}).
Proof.
  destruct (load_stops Sample.model_class [Built (Sample.row 3 1)]
              (Built SampleMore.unkeyed) [Raw (2, 2)] new
              {| _instances := {[ 3 := Sample.row 3 1 ]}; _dirty := false |})
    as [_ Hnone].
  - vm_compute. reflexivity.
  - apply (Hnone SampleMore.unkeyed); reflexivity.
Defined.

End ManagerMore.

(** ** The first manager: [redb/manager.py] *)

Module RedbSpec.

Import Redb.

Section Manager.
Context {K I R : Type} `{Countable K}.
Context (pk : I → option K) (model_class : R → result I).
Implicit Types (self : gmap K I) (data : list R).

Local Abbreviation save := (Redb.save pk).
Local Abbreviation load := (Redb.load pk model_class).

Lemma load_cons_inv elem data self self' :
  load (elem :: data) self = (Ok (), self') →
  ∃ i k, model_class elem = Ok i ∧ pk i = Some k
         ∧ load data (<[k := i]> self) = (Ok (), self').
Proof.
  cbn. destruct (model_class elem) as [i| |]; [|done..]. unfold Redb.save.
  destruct (pk i) as [k|] eqn:Hk; [|done]. intros Hl. exists i, k.
  split; [done|]. split; done.
Qed.

(** A load that returns has built every record and inserted it in turn. *)
Lemma load_returns data self self' :
  load data self = (Ok (), self') →
  ∃ insts ks, mapM model_class data = Ok insts
      ∧ Forall2 (λ i k, pk i = Some k) insts ks
      ∧ self' = list_to_map (reverse (zip ks insts)) ∪ self.
Proof.
  revert self. induction data as [|elem data IH]; intros self.
  - intros [= <-]. exists [], []. split; [done|]. split; [constructor|].
    cbn. by rewrite (left_id_L ∅ (∪)).
  - intros (i & k & Hi & Hk & Hl)%load_cons_inv.
    destruct (IH _ Hl) as (insts & ks & Hb & Hpk & ->).
    exists (i :: insts), (k :: ks). split; [|split; [by constructor|]].
    + cbn. rewrite Hi. cbn. by rewrite Hb.
    + change (zip (k :: ks) (i :: insts)) with ((k, i) :: zip ks insts).
      rewrite reverse_cons, list_to_map_app.
      change (list_to_map [(k, i)]) with (<[k := i]> (∅ : gmap K I)).
      rewrite insert_empty, <-(assoc_L (∪)).
      by rewrite <-insert_union_singleton_l.
Qed.

Lemma load_app data1 data2 self self1 :
  load data1 self = (Ok (), self1) →
  load (data1 ++ data2) self = load data2 self1.
Proof.
  revert self. induction data1 as [|elem data1 IH]; intros self.
  - by intros [= <-].
  - intros (i & k & Hi & Hk & Hl)%load_cons_inv. cbn. rewrite Hi.
    unfold Redb.save. rewrite Hk. by apply IH.
Qed.

(** [load] of the first manager neither clears nor checks: it returns
    exactly when every record builds into an instance whose [pk] is not
    [None]; the entries under keys that no record has are kept; a record
    whose key is taken replaces the instance that was there, so that of the
    records with one key the last is the one that stays. *)
Theorem load_overwrites data self :
  ((∃ self', load data self = (Ok (), self')) ↔
   ∃ insts, mapM model_class data = Ok insts
            ∧ Forall (λ i, is_Some (pk i)) insts)
  ∧ ∀ self', load data self = (Ok (), self') →
      (∀ insts, mapM model_class data = Ok insts →
         ∀ k, (∀ i, i ∈ insts → pk i ≠ Some k) → self' !! k = self !! k)
      ∧ (∀ data1 elem i k, data = data1 ++ [elem] →
           model_class elem = Ok i → pk i = Some k → self' !! k = Some i).
Proof.
  split.
  - revert self. induction data as [|elem data IH]; intros self.
    { split; [intros _; by exists [] | intros _; by eexists]. }
    split.
    + intros [self' (i & k & Hi & Hk & Hl)%load_cons_inv].
      destruct (proj1 (IH _) (ex_intro _ _ Hl)) as (insts & Hb & Hall).
      exists (i :: insts). split; [cbn; rewrite Hi; cbn; by rewrite Hb|].
      constructor; [by rewrite Hk | done].
    + intros (insts & Hb & Hall). cbn in Hb.
      destruct (model_class elem) as [i| |] eqn:Hi; cbn in Hb; [|done..].
      destruct (mapM model_class data) as [insts'| |] eqn:Hb'; cbn in Hb; [|done..].
      injection Hb as <-. apply Forall_cons in Hall as [[k Hk] Hall].
      cbn. rewrite Hi. unfold Redb.save. rewrite Hk.
      apply IH. by exists insts'.
  - intros self' Hl. split.
    + intros insts Hb k Hno.
      destruct (load_returns _ _ _ Hl) as (insts' & ks & Hb' & Hpk & ->).
      rewrite Hb in Hb'. injection Hb' as <-.
      apply lookup_union_r, not_elem_of_list_to_map_1.
      rewrite fmap_reverse, elem_of_reverse.
      intros ([k' i] & -> & Hin)%list_elem_of_fmap.
      pose proof (elem_of_zip_r _ _ _ _ Hin) as Hi.
      apply (Hno i Hi).
      clear -Hpk Hin. induction Hpk as [|i' k'' insts ks Hk _ IH];
        [by apply elem_of_nil in Hin|].
      apply elem_of_cons in Hin as [[= -> ->]|Hin]; [done | by apply IH].
    + intros data1 elem i k -> Hi Hk.
      assert (∃ self1, load data1 self = (Ok (), self1)) as [self1 Hl1].
      { clear -Hl. revert self Hl.
        induction data1 as [|e d IH]; intros self Hl; [by eexists|].
        rewrite <-app_comm_cons in Hl.
        apply load_cons_inv in Hl as (i & k & Hi & Hk & Hl).
        destruct (IH _ Hl) as [self1 Hl1]. exists self1.
        cbn. rewrite Hi. unfold Redb.save. by rewrite Hk. }
      rewrite (load_app _ _ _ _ Hl1) in Hl. cbn in Hl. rewrite Hi in Hl.
      unfold Redb.save in Hl. rewrite Hk in Hl. injection Hl as <-.
      apply lookup_insert_eq.
Qed.
End Manager.

(** [load_overwrites]: of two records with the key 1 the second is the one
    the manager holds. *)
Lemma load_overwrites_witness :
  ∃ self', load Sample.key Sample.model_class [(1, 2); (1, 5)] new
           = (Ok (), self')
           ∧ self' !! 1 = Some (Sample.row 1 5).
Proof.
  destruct (load_overwrites Sample.key Sample.model_class [(1, 2); (1, 5)] new)
    as [Hret Hres].
  destruct (proj2 Hret) as [self' Hs].
  { exists [Sample.row 1 2; Sample.row 1 5]. split; [reflexivity|].
    repeat constructor; eexists; vm_compute; reflexivity. }
  exists self'. split; [done|].
  destruct (Hres self' Hs) as [_ Hlast].
  apply (Hlast [(1, 2)] (1, 5) (Sample.row 1 5) 1);
    [reflexivity | reflexivity | vm_compute; reflexivity].
Defined.

End RedbSpec.

(** ** The database: [redb/database.py] *)

Module DatabaseSpec.

Import Database.

Section Tables.
Context {T : Type} (name : T → string).
Implicit Types (d : list (string * T)) (ts : list T).

Lemma od_set_keys key value d :
  (od_set key value d).*1 = if decide (key ∈ d.*1) then d.*1 else d.*1 ++ [key].
Proof.
  induction d as [|[k v] d IH]; cbn; [by rewrite decide_False by apply not_elem_of_nil|].
  case_bool_decide as Hk; cbn.
  - subst k. by rewrite decide_True by left.
  - rewrite IH. destruct (decide (key ∈ d.*1)) as [Hin|Hin].
    + by rewrite decide_True by (by right).
    + rewrite decide_False; [done|].
      intros [->|?]%elem_of_cons; done.
Qed.

Lemma elem_of_od_set key value d k v :
  NoDup d.*1 →
  (k, v) ∈ od_set key value d ↔
  (k = key ∧ v = value) ∨ (k ≠ key ∧ (k, v) ∈ d).
Proof.
  induction d as [|[k0 v0] d IH]; cbn; intros Hnd.
  { rewrite list_elem_of_singleton. split.
    - intros [= -> ->]. by left.
    - intros [[-> ->]|[_ ?%elem_of_nil]]; done. }
  apply NoDup_cons in Hnd as [Hk0 Hnd]. case_bool_decide as Hk; cbn.
  - subst k0. rewrite !elem_of_cons. split.
    + intros [[= -> ->]|Hin]; [by left|]. right. split; [|by right].
      intros ->. apply Hk0. by apply (list_elem_of_fmap_2 fst _ (key, v)).
    + intros [[-> ->]|[Hne [[= ? ?]|Hin]]]; [by left|done|by right].
  - rewrite !elem_of_cons, (IH Hnd). split.
    + intros [[= -> ->]|[[-> ->]|[Hne Hin]]].
      * right. split; [done | by left].
      * by left.
      * right. split; [done | by right].
    + intros [[-> ->]|[Hne [[= -> ->]|Hin]]].
      * right. by left.
      * by left.
      * right. right. done.
Qed.

Local Abbreviation built := (Database.fill name).

Lemma built_snoc ts t : built (ts ++ [t]) = od_set (name t) t (built ts).
Proof. unfold fill. by rewrite foldl_snoc. Qed.

Lemma built_spec ts :
  (built ts).*1 = reverse (remove_dups (reverse (name <$> ts)))
  ∧ NoDup (built ts).*1
  ∧ ∀ k t, (k, t) ∈ built ts ↔
      k = name t ∧ last (filter (λ t', name t' = name t) ts) = Some t.
Proof.
  induction ts as [|t0 ts (Hkeys & Hnd & Hin)] using rev_ind.
  { split; [done|]. split; [constructor|]. intros k t. split.
    - by intros ?%elem_of_nil.
    - by intros [_ ?]. }
  rewrite built_snoc.
  assert ((od_set (name t0) t0 (built ts)).*1
          = reverse (remove_dups (reverse (name <$> ts ++ [t0])))) as Hkeys'.
  { rewrite od_set_keys, fmap_app.
    change (name <$> [t0]) with [name t0]. rewrite reverse_snoc.
    cbn [remove_dups].
    rewrite Hkeys. unfold decide_rel.
    destruct (list_elem_of_dec (name t0) (reverse (name <$> ts)))
      as [Hin0|Hin0].
    - rewrite decide_True; [done|].
      by rewrite elem_of_reverse, elem_of_remove_dups.
    - rewrite decide_False, reverse_cons; [done|].
      by rewrite elem_of_reverse, elem_of_remove_dups. }
  split; [done|]. split.
  { rewrite Hkeys', reverse_Permutation. apply NoDup_remove_dups. }
  intros k t. rewrite (elem_of_od_set _ _ _ _ _ Hnd), Hin, filter_app.
  destruct (decide (name t0 = name t)) as [Heq|Hne].
  - assert (filter (λ t', name t' = name t) [t0] = [t0]) as ->.
    { rewrite filter_cons, decide_True by done. by rewrite filter_nil. }
    rewrite last_snoc. split.
    + intros [[-> ->]|[Hk [-> _]]]; [done | congruence].
    + intros [-> [= ->]]. by left.
  - assert (filter (λ t', name t' = name t) [t0] = []) as ->.
    { rewrite filter_cons, decide_False by done. by rewrite filter_nil. }
    rewrite (right_id_L [] (++)). split.
    + intros [[-> ->]|[Hk ?]]; done.
    + intros [-> Hl]. right. split; [congruence | done].
Qed.

(** The tables of a database: one for each name given, in the order in
    which the names first came, and for each name the last table that was
    given with it. *)
Theorem tables_spec ts (storage root_dir : option string) :
  name <$> tables (init name ts storage root_dir)
  = reverse (remove_dups (reverse (name <$> ts)))
  ∧ NoDup (name <$> tables (init name ts storage root_dir))
  ∧ (∀ t, t ∈ tables (init name ts storage root_dir) ↔
          last (filter (λ t', name t' = name t) ts) = Some t)
  ∧ (length (tables (init name ts storage root_dir)) ≤ length ts)%nat.
Proof.
  destruct (built_spec ts) as (Hkeys & Hnd & Hin).
  unfold tables, init. cbn [_tables].
  assert (name <$> (built ts).*2 = (built ts).*1) as Hnames.
  { rewrite <-list_fmap_compose. apply list_fmap_ext.
    intros i [k t] Hl. cbn. symmetry.
    by apply (Hin k t), (list_elem_of_lookup_2 _ i). }
  rewrite Hnames. split; [done|]. split; [done|]. split.
  - intros t. rewrite list_elem_of_fmap. split.
    + intros ([k t'] & -> & Hkt). by apply (Hin k t').
    + intros Hl. exists (name t, t). split; [done|]. by apply Hin.
  - rewrite length_fmap, <-(length_fmap fst), Hkeys, length_reverse.
    rewrite <-(length_fmap name ts), <-(length_reverse (name <$> ts)).
    apply submseteq_length, NoDup_submseteq; [apply NoDup_remove_dups|].
    intros k. by rewrite elem_of_remove_dups.
Qed.
End Tables.

Section Files.
Context {T : Type} (name : T → string).

Lemma append_cons (c : ascii) (s r : string) :
  String c s +:+ r = String c (s +:+ r).
Proof. reflexivity. Qed.

Lemma length_append (s r : string) :
  String.length (s +:+ r) = (String.length s + String.length r)%nat.
Proof. induction s as [|c s IH]; [done|]. rewrite append_cons. cbn. by rewrite IH. Qed.

(** Texts with the same ending are equal when what comes before is. *)
Lemma append_inv_tail (s1 s2 r : string) : s1 +:+ r = s2 +:+ r → s1 = s2.
Proof.
  revert s2. induction s1 as [|c s1 IH]; intros [|c2 s2] Heq.
  - done.
  - apply (f_equal String.length) in Heq.
    rewrite !length_append in Heq. cbn in Heq. lia.
  - apply (f_equal String.length) in Heq.
    rewrite !length_append in Heq. cbn in Heq. lia.
  - rewrite !append_cons in Heq. injection Heq as -> Heq. f_equal. by apply IH.
Qed.

Lemma prefix_slash_cons (c : ascii) (x y : string) :
  String.prefix "/" (String c x) = String.prefix "/" (String c y).
Proof.
  change (match ascii_dec "/" c with
          | left _ => String.prefix "" x | right _ => false end
          = match ascii_dec "/" c with
            | left _ => String.prefix "" y | right _ => false end).
  destruct (ascii_dec "/" c); [|done]. by destruct x, y.
Qed.

Lemma prefix_slash_append (s r : string) :
  String.prefix "/" (s +:+ "." +:+ r) = String.prefix "/" s.
Proof.
  destruct s as [|c s]; [reflexivity|]. rewrite append_cons.
  apply prefix_slash_cons.
Qed.

(** The file of a table. A name that starts with a slash stands alone, the
    root directory is not part of the file name; for the other names the
    file is under the root directory, [./name.json] with the defaults, and
    two tables with different names never share a file. *)
Theorem filename_spec (self : database) (t : T) :
  (String.prefix "/" (name t) = true →
   get_filename name self t = name t +:+ "." +:+ _storage_type self)
  ∧ (String.prefix "/" (name t) = false →
     ∀ ts, get_filename name (init name ts None None) t
           = "./" +:+ name t +:+ ".json")
  ∧ (∀ t', String.prefix "/" (name t) = false →
       String.prefix "/" (name t') = false →
       get_filename name self t = get_filename name self t' →
       name t = name t').
Proof.
  unfold get_filename, path_join. split; [|split].
  - intros Hp. by rewrite prefix_slash_append, Hp.
  - intros Hp ts. by rewrite prefix_slash_append, Hp.
  - intros t' Hp Hp'. rewrite !prefix_slash_append, Hp, Hp'.
    destruct (bool_decide (_root_dir self = ""%string)
              || String.prefix "/" (String.rev (_root_dir self))).
    + intros Heq%(inj (String.app _)). by apply append_inv_tail in Heq.
    + intros Heq%(inj (String.app _))%(inj (String.app _)).
      by apply append_inv_tail in Heq.
Qed.
End Files.

(** [tables_spec]: of two tables named [a] the later one is kept, at the
    place of the first. *)
Lemma tables_spec_witness :
  ("a"%string, 3%nat)
  ∈ tables (init fst [("a"%string, 1%nat); ("b"%string, 2%nat);
                        ("a"%string, 3%nat)] None None).
Proof.
  destruct (tables_spec fst [("a"%string, 1%nat); ("b"%string, 2%nat);
                             ("a"%string, 3%nat)] None None)
    as (_ & _ & Hin & _).
  apply Hin. vm_compute. reflexivity.
Defined.

(** [filename_spec]: a table named [users] in a database built with the
    defaults. *)
Lemma filename_spec_witness :
  get_filename fst (init fst [("users"%string, 1%nat)] None None)
    ("users"%string, 1%nat)
  = "./users.json"%string.
Proof.
  destruct (filename_spec fst (init fst [] None None) ("users"%string, 1%nat))
    as (_ & Hrel & _).
  apply (Hrel eq_refl [("users"%string, 1%nat)]).
Defined.

End DatabaseSpec.
